(** * jaunt: a barebones schema-migration runner (src/jaunt/jaunt.py)

    A shallow embedding of the migration engine: the file-name grammar
    [MIGR_MATCH], the [Migration] descriptor, the directory scan
    [_get_migrations_from_dir], the range selection done with [bisect] in
    [up] and [down], the SHA-1 hash chain of [_apply_migration] and the
    ledger table [_migration].

    Conventions of the embedding.
    - A Python [str] is a [string] whose characters are the code points
      U+0000..U+00FF; [encode] is their UTF-8 encoding.
    - A Python [int] is a [Z].
    - Exceptions are values of [exn]; a computation that may raise returns
      a [result].  Code that talks to the connection runs in the monad [M],
      which threads the [world] (table, open transaction, clock, stdout).
    - The MySQL driver is the interface [Database]; the conversion it
      applies to the parameters of an INSERT is [to_mysql], which takes a
      [str] and refuses a [pathlib.Path]. *)

From Stdlib Require Import ZArith List String Ascii Bool Lia.
From Stdlib Require Import Sorting.Sorted Sorting.Permutation.
From Equations Require Import Equations.
Import ListNotations.

Local Open Scope string_scope.
Local Open Scope Z_scope.

(* ===================================================================== *)
(** ** Exceptions and results *)
(* ===================================================================== *)

Inductive exn : Type :=
| NotImplementedError (what : string)
| KeyError (key : string)
| TypeError (what : string)
| ValueError (what : string)
| StopIteration
| DatabaseError (msg : string)
| ProgrammingError (msg : string).

Inductive result (A : Type) : Type :=
| Ok (a : A)
| Raise (e : exn).
Arguments Ok {A} a.
Arguments Raise {A} e.

Definition rbind {A B} (r : result A) (f : A -> result B) : result B :=
  match r with
  | Ok a => f a
  | Raise e => Raise e
  end.

Declare Scope result_scope.
Delimit Scope result_scope with result.
Notation "'let?' x ':=' r 'in' k" := (rbind r (fun x => k))
  (at level 10, x name, r at level 100, k at level 200) : result_scope.

(* ===================================================================== *)
(** ** Dictionaries with string keys, in insertion order *)
(* ===================================================================== *)

Definition dict (V : Type) : Type := list (string * V).

Fixpoint dict_find {V} (k : string) (d : dict V) : option V :=
  match d with
  | [] => None
  | (k', v) :: d' => if String.eqb k' k then Some v else dict_find k d'
  end.

(** [d[k]], raising [KeyError] on a missing key. *)
Definition dict_get {V} (k : string) (d : dict V) : result V :=
  match dict_find k d with
  | Some v => Ok v
  | None => Raise (KeyError k)
  end.

(** The in-place update of the value stored under [k]; the key keeps its
    position. *)
Fixpoint dict_update {V} (k : string) (f : V -> V) (d : dict V) : dict V :=
  match d with
  | [] => []
  | (k', v) :: d' =>
      if String.eqb k' k then (k', f v) :: d' else (k', v) :: dict_update k f d'
  end.

Definition dict_values {V} (d : dict V) : list V := map snd d.

(* ===================================================================== *)
(** ** Regular expressions: the fragment of [re] that MIGR_MATCH uses *)
(* ===================================================================== *)

Definition newline : ascii := "010"%char.

Inductive atom : Type :=
| Any                   (* .    any character but a newline *)
| Digit                 (* \d   a decimal digit *)
| OneOf (cs : string).  (* [cs] *)

Inductive regex : Type :=
| Atom (a : atom)
| Plus (a : atom)                        (* a+   greedy *)
| Lit (s : string)                       (* literal characters *)
| Cat (r1 r2 : regex)
| Opt (r : regex)                        (* r?   greedy *)
| Group (name : option string) (r : regex)
| Bol                                    (* ^ *)
| Eol.                                   (* $ *)

Declare Scope regex_scope.
Delimit Scope regex_scope with regex.
Notation "r1 ';;' r2" := (Cat r1 r2) (at level 61, right associativity) : regex_scope.

Fixpoint mem_char (c : ascii) (cs : string) : bool :=
  match cs with
  | EmptyString => false
  | String c' cs' => Ascii.eqb c c' || mem_char c cs'
  end.

Definition is_digit (c : ascii) : bool :=
  let n := nat_of_ascii c in (48 <=? n)%nat && (n <=? 57)%nat.

Definition atom_ok (a : atom) (c : ascii) : bool :=
  match a with
  | Any => negb (Ascii.eqb c newline)
  | Digit => is_digit c
  | OneOf cs => mem_char c cs
  end.

(** Captured named groups; a group that did not take part has no entry. *)
Definition captures : Type := dict string.

(** A continuation receives the position, the rest of the subject and the
    captures so far. *)
Definition cont : Type := nat -> string -> captures -> option captures.

(** [a+]: as many characters as possible first, then fewer. *)
Fixpoint plus_match (a : atom) (pos : nat) (s : string) (caps : captures)
    (k : cont) : option captures :=
  match s with
  | EmptyString => None
  | String c s' =>
      if atom_ok a c then
        match plus_match a (S pos) s' caps k with
        | Some r => Some r
        | None => k (S pos) s' caps
        end
      else None
  end.

Fixpoint strip_prefix (p s : string) : option string :=
  match p, s with
  | EmptyString, _ => Some s
  | String a p', String b s' => if Ascii.eqb a b then strip_prefix p' s' else None
  | String _ _, EmptyString => None
  end.

(** [$] matches at the end of the subject and before a final newline. *)
Definition at_end (s : string) : bool :=
  match s with
  | EmptyString => true
  | String c EmptyString => Ascii.eqb c newline
  | _ => false
  end.

Definition set_group (name : option string) (text : string) (caps : captures)
    : captures :=
  match name with
  | Some n => (n, text) :: caps
  | None => caps
  end.

(** The backtracking matcher. *)
Fixpoint rmatch (r : regex) (pos : nat) (s : string) (caps : captures)
    (k : cont) : option captures :=
  match r with
  | Atom a =>
      match s with
      | String c s' => if atom_ok a c then k (S pos) s' caps else None
      | EmptyString => None
      end
  | Plus a => plus_match a pos s caps k
  | Lit l =>
      match strip_prefix l s with
      | Some s' => k (pos + String.length l)%nat s' caps
      | None => None
      end
  | Cat r1 r2 => rmatch r1 pos s caps (fun p s' c => rmatch r2 p s' c k)
  | Opt r' =>
      match rmatch r' pos s caps k with
      | Some c => Some c
      | None => k pos s caps
      end
  | Group name r' =>
      rmatch r' pos s caps
        (fun p s' c => k p s' (set_group name (substring 0 (p - pos) s) c))
  | Bol => if (pos =? 0)%nat then k pos s caps else None
  | Eol => if at_end s then k pos s caps else None
  end.

(** The continuation [fullmatch] ends with: nothing of the subject is left. *)
Definition at_subject_end : cont :=
  fun _ s' c => match s' with EmptyString => Some c | _ => None end.

(** [Pattern.fullmatch]: the match has to end where the subject ends. *)
Definition fullmatch (r : regex) (s : string) : option captures :=
  rmatch r 0 s [] at_subject_end.

(** [match[name]]: [None] for a group that did not take part. *)
Definition group (m : captures) (name : string) : option string :=
  dict_find name m.

(** MIGR_MATCH = re.compile("^(?P<type>[UV])(?P<num>\d+)(__(?P<desc>.+))?.sql$") *)
Definition MIGR_MATCH : regex :=
  (Bol ;;
   Group (Some "type") (Atom (OneOf "UV")) ;;
   Group (Some "num") (Plus Digit) ;;
   Opt (Group None (Lit "__" ;; Group (Some "desc") (Plus Any))) ;;
   Atom Any ;; Lit "sql" ;;
   Eol)%regex.

(** The grammar as the specification writes it, with an escaped dot:
    ^(U|V)(\d+)(__(?P<description>.+))?\.sql$ *)
Definition SPEC_GRAMMAR : regex :=
  (Bol ;;
   Group (Some "type") (Atom (OneOf "UV")) ;;
   Group (Some "num") (Plus Digit) ;;
   Opt (Group None (Lit "__" ;; Group (Some "desc") (Plus Any))) ;;
   Lit ".sql" ;;
   Eol)%regex.

(** PREFIX_TO_TYPE = {"V": "up", "U": "down"} *)
Definition PREFIX_TO_TYPE : dict string := [("V", "up"); ("U", "down")].

(** [int(s)] on a string of decimal digits. *)
Definition digit_value (c : ascii) : Z := Z.of_nat (nat_of_ascii c) - 48.

Fixpoint int_acc (s : string) (acc : Z) : result Z :=
  match s with
  | EmptyString => Ok acc
  | String c s' =>
      if is_digit c then int_acc s' (10 * acc + digit_value c)
      else Raise (ValueError "int")
  end.

Definition int (s : option string) : result Z :=
  match s with
  | None => Raise (TypeError "int")
  | Some EmptyString => Raise (ValueError "int")
  | Some s' => int_acc s' 0
  end.

(* ===================================================================== *)
(** ** class Migration *)
(* ===================================================================== *)

(** A directory entry: its name and what reading it as text yields. *)
Record File : Type := { name : string; text : string }.

(** The two values [self.type] can hold once [__init__] has returned. *)
Inductive mtype : Type := Up | Down.

Definition type_name (t : mtype) : string :=
  match t with Up => "up" | Down => "down" end.

Record Migration : Type := {
  type : mtype;
  ver_from : Z;
  ver_to : Z;
  desc : option string;
  file : File
}.

(** Migration.__init__ *)
Definition Migration_init (ty : string) (ver : Z) (d : option string) (f : File)
    : result Migration :=
  if String.eqb ty "up" then
    Ok {| type := Up; ver_from := ver - 1; ver_to := ver; desc := d; file := f |}
  else if String.eqb ty "down" then
    Ok {| type := Down; ver_from := ver; ver_to := ver - 1; desc := d; file := f |}
  else Raise (NotImplementedError ty).

(** Migration.ver; the [else] branch of the source cannot be reached by an
    object that [__init__] has built. *)
Definition ver (m : Migration) : Z :=
  match type m with
  | Up => ver_to m
  | Down => ver_from m
  end.

(** Migration.__repr__ is f"{self.ver}: {self.desc:<24}\t ({self.file})": the
    format specification [<24] is applied to [self.desc], and [None] accepts
    no format specification.  The result is the descriptor being shown. *)
Definition Migration_repr (m : Migration) : result Migration :=
  match desc m with
  | Some _ => Ok m
  | None => Raise (TypeError "unsupported format string passed to NoneType.__format__")
  end.

(* ===================================================================== *)
(** ** list.sort, sorted and bisect *)
(* ===================================================================== *)

Section Sorting.
Context {A : Type} (key : A -> Z).

(** [x] goes in front of the first element whose key is not smaller, so
    elements with equal keys keep their order. *)
Fixpoint insert_by (x : A) (l : list A) : list A :=
  match l with
  | [] => [x]
  | y :: l' => if key x <=? key y then x :: l else y :: insert_by x l'
  end.

(** [l.sort(key=key)]: the stable sort by ascending key. *)
Definition sort_by (l : list A) : list A := fold_right insert_by [] l.

(** [sorted(l, key=key, reverse=r)]: with [reverse] the list is reversed,
    sorted and reversed again, which keeps the sort stable. *)
Definition sorted (reverse : bool) (l : list A) : list A :=
  if reverse then rev (sort_by (rev l)) else sort_by l.

(** The loop of [bisect.bisect_right(a, x, lo, hi, key=key)]:
    while lo < hi: mid = (lo + hi) // 2;
      if x < key(a[mid]): hi = mid  else: lo = mid + 1
    [a[mid]] is always in range, as [mid < hi <= len(a)]. *)
Equations? bisect_loop (a : list A) (x : Z) (lo hi : nat) : nat
    by wf (hi - lo)%nat lt :=
  bisect_loop a x lo hi with lt_dec lo hi => {
    | right _ := lo
    | left _ with nth_error a ((lo + hi) / 2)%nat => {
        | Some y with Z_lt_dec x (key y) => {
            | left _ := bisect_loop a x lo ((lo + hi) / 2)%nat
            | right _ := bisect_loop a x (S ((lo + hi) / 2))%nat hi }
        | None := lo } }.
Proof.
  all: change (fst (Nat.divmod (lo + hi) 1 0 1)) with ((lo + hi) / 2)%nat;
    pose proof (Nat.div_mod_eq (lo + hi) 2);
    pose proof (Nat.mod_upper_bound (lo + hi) 2); lia.
Qed.

(** [bisect(a, x, key=key)], with lo = 0 and hi = len(a). *)
Definition bisect (a : list A) (x : Z) : nat :=
  bisect_loop a x 0 (List.length a).

(** The slice [a[i:j]] for indices between 0 and len(a). *)
Definition slice (a : list A) (i j : nat) : list A :=
  firstn (j - i) (skipn i a).
End Sorting.

(** Ascending and descending order of the keys. *)
Definition ascending {A} (key : A -> Z) (l : list A) : Prop :=
  StronglySorted (fun a b => key a <= key b) l.

Definition descending {A} (key : A -> Z) (l : list A) : Prop :=
  StronglySorted (fun a b => key b <= key a) l.

(* ===================================================================== *)
(** ** _get_migrations_from_dir *)
(* ===================================================================== *)

Local Open Scope result_scope.

(** Lines 262-265: what one directory entry parses to, with the key of the
    list it goes to. *)
Definition parse_file (f : File) : result (option (string * Migration)) :=
  match fullmatch MIGR_MATCH (name f) with
  | Some m =>
      let? prefix :=
        match group m "type" with
        | Some p => Ok p
        | None => Raise (KeyError "None")
        end in
      let? migr_type := dict_get prefix PREFIX_TO_TYPE in
      let? num := int (group m "num") in
      let? migr := Migration_init migr_type num (group m "desc") f in
      Ok (Some (migr_type, migr))
  | None => Ok None
  end.

(** The body of the loop over [path.iterdir()]. *)
Definition scan_file (f : File) (migrations : dict (list Migration))
    : result (dict (list Migration)) :=
  let? parsed := parse_file f in
  match parsed with
  | Some (migr_type, migr) =>
      let? _ := dict_get migr_type migrations in
      Ok (dict_update migr_type (fun l => (l ++ [migr])%list) migrations)
  | None => Ok migrations
  end.

Fixpoint scan_files (fs : list File) (migrations : dict (list Migration))
    : result (dict (list Migration)) :=
  match fs with
  | [] => Ok migrations
  | f :: fs' =>
      let? migrations' := scan_file f migrations in
      scan_files fs' migrations'
  end.

(** [path] is the directory as [iterdir] lists it. *)
Definition _get_migrations_from_dir (path : list File)
    : result (dict (list Migration)) :=
  let migrations := map (fun _type => (_type, [])) (dict_values PREFIX_TO_TYPE) in
  let? migrations := scan_files path migrations in
  Ok (map (fun '(migr_type, migr_list) => (migr_type, sort_by ver migr_list))
        migrations).

(* ===================================================================== *)
(** ** hashlib.sha1 and str.encode *)
(* ===================================================================== *)

(** [s.encode()]: UTF-8, one byte below U+0080 and two bytes from there to
    U+00FF. *)
Definition encode_char (c : ascii) : list Z :=
  let n := Z.of_nat (nat_of_ascii c) in
  if n <? 128 then [n]
  else [Z.lor 192 (Z.shiftr n 6); Z.lor 128 (Z.land n 63)].

Fixpoint encode (s : string) : list Z :=
  match s with
  | EmptyString => []
  | String c s' => (encode_char c ++ encode s')%list
  end.

Module SHA1.

Definition mask32 : Z := 4294967295.
Definition w32 (x : Z) : Z := Z.land x mask32.
Definition add32 (x y : Z) : Z := w32 (x + y).
Definition rotl (n x : Z) : Z :=
  w32 (Z.lor (Z.shiftl x n) (Z.shiftr x (32 - n))).
Definition not32 (x : Z) : Z := Z.lxor x mask32.

(** The length in bits as eight bytes, most significant first. *)
Definition be64 (n : Z) : list Z :=
  map (fun i => Z.land (Z.shiftr n (8 * i)) 255) [7; 6; 5; 4; 3; 2; 1; 0].

(** The message, a 1 bit, zeros up to 56 modulo 64, the length. *)
Definition pad (msg : list Z) : list Z :=
  let l := Z.of_nat (List.length msg) in
  (msg ++ [128] ++ repeat 0 (Z.to_nat ((55 - l) mod 64)) ++ be64 (8 * l))%list.

Fixpoint words (bs : list Z) : list Z :=
  match bs with
  | b0 :: b1 :: b2 :: b3 :: rest =>
      Z.lor (Z.shiftl b0 24) (Z.lor (Z.shiftl b1 16) (Z.lor (Z.shiftl b2 8) b3))
      :: words rest
  | _ => []
  end.

Fixpoint blocks (n : nat) (ws : list Z) : list (list Z) :=
  match n with
  | O => []
  | S n' => firstn 16 ws :: blocks n' (skipn 16 ws)
  end.

(** [w] holds the sixteen words before the one being computed. *)
Fixpoint expand (n : nat) (w : list Z) : list Z :=
  match n with
  | O => []
  | S n' =>
      let x := rotl 1 (Z.lxor (Z.lxor (nth 13 w 0) (nth 8 w 0))
                              (Z.lxor (nth 2 w 0) (nth 0 w 0))) in
      x :: expand n' (tl w ++ [x])%list
  end.

Definition schedule (block : list Z) : list Z :=
  (block ++ expand 64 block)%list.

Definition f (t : nat) (b c d : Z) : Z :=
  if (t <? 20)%nat then Z.lor (Z.land b c) (Z.land (not32 b) d)
  else if (t <? 40)%nat then Z.lxor (Z.lxor b c) d
  else if (t <? 60)%nat then Z.lor (Z.lor (Z.land b c) (Z.land b d)) (Z.land c d)
  else Z.lxor (Z.lxor b c) d.

Definition K (t : nat) : Z :=
  if (t <? 20)%nat then 1518500249
  else if (t <? 40)%nat then 1859775393
  else if (t <? 60)%nat then 2400959708
  else 3395469782.

Definition state : Type := (Z * Z * Z * Z * Z)%type.

Definition round (st : state) (tw : nat * Z) : state :=
  let '(a, b, c, d, e) := st in
  let '(t, w) := tw in
  let tmp := add32 (add32 (add32 (add32 (rotl 5 a) (f t b c d)) e) (K t)) w in
  (tmp, a, rotl 30 b, c, d).

Definition process_block (h : state) (block : list Z) : state :=
  let '(h0, h1, h2, h3, h4) := h in
  let '(a, b, c, d, e) :=
    fold_left round (combine (seq 0 80) (schedule block)) h in
  (add32 h0 a, add32 h1 b, add32 h2 c, add32 h3 d, add32 h4 e).

Definition init : state :=
  (1732584193, 4023233417, 2562383102, 271733878, 3285377520).

Definition digest (msg : list Z) : state :=
  let ws := words (pad msg) in
  fold_left process_block (blocks (List.length ws / 16) ws) init.

Definition hex_digit (n : Z) : ascii :=
  if n <? 10 then ascii_of_nat (Z.to_nat (48 + n))
  else ascii_of_nat (Z.to_nat (87 + n)).

Definition nibble (w : Z) (i : Z) : ascii :=
  hex_digit (Z.land (Z.shiftr w (4 * i)) 15).

Definition hex8 (w : Z) : string :=
  String (nibble w 7) (String (nibble w 6) (String (nibble w 5)
  (String (nibble w 4) (String (nibble w 3) (String (nibble w 2)
  (String (nibble w 1) (String (nibble w 0) EmptyString))))))).

(** [hashlib.sha1(msg).hexdigest()] *)
Definition hexdigest (msg : list Z) : string :=
  let '(h0, h1, h2, h3, h4) := digest msg in
  hex8 h0 ++ hex8 h1 ++ hex8 h2 ++ hex8 h3 ++ hex8 h4.

End SHA1.

(** Lines 292-293 of _apply_migration:
    to_hash = last_hash + query; hash = hashlib.sha1(to_hash.encode()).hexdigest() *)
Definition next_hash (last_hash query : string) : string :=
  let to_hash := last_hash ++ query in
  SHA1.hexdigest (encode to_hash).

(* ===================================================================== *)
(** ** The database driver and the world *)
(* ===================================================================== *)

(** What the program needs of mysql.connector: a state of the user's tables,
    how a multi-statement operation splits into statements, and what one
    statement does (a new state, or the server's error). *)
Class Database : Type := {
  tables : Type;
  statements : string -> list string;
  exec_stmt : tables -> string -> tables + string
}.

(** A row of the table _migration (MIGR_TABLE). *)
Record row : Type := {
  r_date : nat;
  r_version : Z;
  r_migration : string;
  r_migration_hash : string;
  r_schema_hash : option string
}.

(** What the program passes for the column [migration] of an INSERT: a
    [str] (line 78) or the [pathlib.Path] of a migration file, as [iterdir]
    yields it (line 295). *)
Inductive param : Type :=
| PStr (s : string)
| PPath (f : File).

(** The exception of cursor.execute on a parameter that is a path. *)
Definition path_refused : exn :=
  ProgrammingError
    "Failed processing format-parameters; Python 'posixpath' cannot be converted to a MySQL type".

(** The driver's conversion of a parameter to a MySQL value, done by
    cursor.execute before the statement is sent: the connection that the
    commands open has a converter for [str] and none for a path. *)
Definition to_mysql (p : param) : result string :=
  match p with
  | PStr s => Ok s
  | PPath _ => Raise path_refused
  end.

(** What the program writes to standard output. *)
Inductive line : Type :=
| PrintHash (h : string)                      (* print(migration_hash) *)
| CurrentlyAt (v : Z) (migration : string) (date : nat)
                                              (* "Currently at {v}: {migration} ({date})" *)
| WarnNoMigrations                            (* "WARN: No migrations to apply" *)
| ToApply (n : nat)                           (* "{n} migrations to apply:" *)
| Listing (m : Migration)                     (* "\t{migr!r}" *)
| Applying (m : Migration)                    (* "Applying {migr}..." *)
| Done                                        (* "Done!" *)
| AllDone                                     (* "All done!" *)
| WarnEmpty                                   (* "WARN: Migration is empty!" *)
| Header (migr_type : string).                (* "{migr_type.title()}:" *)

Section Runner.
Context {DB : Database}.

(** The contents of the database: the ledger and the user's tables. *)
Record store : Type := {
  _migration : list row;
  user : tables
}.

(** [committed] is what the server keeps; [session] is what the open
    connection sees, its own uncommitted work included. *)
Record world : Type := {
  committed : store;
  session : store;
  clock : nat;
  stdout : list line
}.

(** State and exceptions. *)
Definition M (A : Type) : Type := world -> result A * world.

Definition ret {A} (a : A) : M A := fun w => (Ok a, w).

Definition bind {A B} (m : M A) (f : A -> M B) : M B :=
  fun w =>
    match m w with
    | (Ok a, w') => f a w'
    | (Raise e, w') => (Raise e, w')
    end.

Definition lift {A} (r : result A) : M A := fun w => (r, w).

Definition raise {A} (e : exn) : M A := fun w => (Raise e, w).

Definition print (l : line) : M unit :=
  fun w =>
    (Ok tt, {| committed := committed w; session := session w;
               clock := clock w; stdout := (stdout w ++ [l])%list |}).

(** conn.commit() *)
Definition commit : M unit :=
  fun w =>
    (Ok tt, {| committed := session w; session := session w;
               clock := clock w; stdout := stdout w |}).

(** datetime.now(): successive readings differ. *)
Definition datetime_now : M nat :=
  fun w =>
    (Ok (clock w), {| committed := committed w; session := session w;
                      clock := S (clock w); stdout := stdout w |}).

(** The first row of ORDER BY date DESC. *)
Definition latest (rows : list row) : option row :=
  fold_left
    (fun best r =>
       match best with
       | None => Some r
       | Some b => if (r_date b <? r_date r)%nat then Some r else Some b
       end)
    rows None.

(** cursor.execute("SELECT date, version, migration, migration_hash
    FROM _migration ORDER BY date DESC LIMIT 1"); next(cursor) *)
Definition select_latest : M (nat * Z * string * string) :=
  fun w =>
    match latest (_migration (session w)) with
    | Some r => (Ok (r_date r, r_version r, r_migration r, r_migration_hash r), w)
    | None => (Raise StopIteration, w)
    end.

(** cursor.execute("INSERT INTO `_migration`VALUES (%s, %s, %s, %s, %s)", r) *)
Definition insert_row (r : row) : M unit :=
  fun w =>
    (Ok tt, {| committed := committed w;
               session := {| _migration := (_migration (session w) ++ [r])%list;
                             user := user (session w) |};
               clock := clock w; stdout := stdout w |}).

(** One statement of a migration, run in the open transaction. *)
Definition run_statement (stmt : string) : M unit :=
  fun w =>
    match exec_stmt (user (session w)) stmt with
    | inl t =>
        (Ok tt, {| committed := committed w;
                   session := {| _migration := _migration (session w); user := t |};
                   clock := clock w; stdout := stdout w |})
    | inr msg => (Raise (DatabaseError msg), w)
    end.

(** cursor.execute(query, multi=True): [None] for an empty operation,
    else one result per statement. *)
Definition cursor_execute_multi (query : string) : option (list string) :=
  match query with
  | EmptyString => None
  | _ => Some (statements query)
  end.

(** for result in results: pass -- reaching a result runs its statement
    and raises its error. *)
Fixpoint consume (results : list string) : M unit :=
  match results with
  | [] => ret tt
  | stmt :: rest => bind (run_statement stmt) (fun _ => consume rest)
  end.

Notation "x <- m ;; k" := (bind m (fun x => k))
  (at level 61, m at next level, right associativity).
Notation "' pat <- m ;; k" := (bind m (fun x => match x with pat => k end))
  (at level 61, pat pattern, m at next level, right associativity).
Notation "m ;;; k" := (bind m (fun _ => k))
  (at level 61, right associativity).

(** _record_migration: the tuple of parameters is built first (the clock is
    read), then cursor.execute converts the parameters and sends the
    INSERT. *)
Definition _record_migration (version : Z) (migration : param)
    (migr_hash : string) : M unit :=
  now <- datetime_now ;;
  migration <- lift (to_mysql migration) ;;
  insert_row {| r_date := now; r_version := version; r_migration := migration;
                r_migration_hash := migr_hash; r_schema_hash := None |}.

(** _apply_migration *)
Definition _apply_migration (migration : Migration) (last_hash : string)
    : M string :=
  let query := text (file migration) in
  let results := cursor_execute_multi query in
  match results with
  | None => print WarnEmpty
  | Some results => consume results
  end ;;;
  let hash := next_hash last_hash query in
  _record_migration (ver_to migration) (PPath (file migration)) hash ;;;
  ret hash.

(** for migr in migrations: print(f"\t{migr!r}") *)
Fixpoint print_listing (migrations : list Migration) : M unit :=
  match migrations with
  | [] => ret tt
  | migr :: rest =>
      shown <- lift (Migration_repr migr) ;;
      print (Listing shown) ;;;
      print_listing rest
  end.

(** The loop that applies the queue, shared by [up] (lines 176-181) and
    [down] (lines 119-124); the value is the last migration_hash. *)
Fixpoint apply_all (migrations : list Migration) (migration_hash : string)
    : M string :=
  match migrations with
  | [] => ret migration_hash
  | migr :: rest =>
      print (Applying migr) ;;;
      migration_hash <- _apply_migration migr migration_hash ;;
      commit ;;;
      print Done ;;;
      apply_all rest migration_hash
  end.

(** Lines 169-183 of [up] and 112-126 of [down]. *)
Definition run_queue (migrations : list Migration) (migration_hash : string)
    : M unit :=
  match migrations with
  | [] => print WarnNoMigrations
  | _ =>
      print (ToApply (List.length migrations)) ;;;
      print_listing migrations ;;;
      apply_all migrations migration_hash ;;;
      print AllDone
  end.

(** The parsed command line, as far as the commands read it. *)
Record Namespace : Type := {
  migration_dir : list File;
  version : option Z
}.

(** [up], lines 149-151: the queue is cut after the target. *)
Definition up_to_version (version : option Z) (migrations : list Migration)
    : list Migration :=
  match version with
  | Some v => firstn (bisect ver migrations v) migrations
  | None => migrations
  end.

(** [up], lines 165-167: the queue starts after the current version. *)
Definition after_current (curr_version : Z) (migrations : list Migration)
    : list Migration :=
  skipn (bisect ver migrations curr_version) migrations.

(** What [up] queues. *)
Definition up_select (migrations : list Migration) (version : option Z)
    (curr_version : Z) : list Migration :=
  after_current curr_version (up_to_version version migrations).

(** [down], lines 95, 108 and 110. *)
Definition down_select (migrations : list Migration) (version : Z)
    (curr_version : Z) : list Migration :=
  let end_ := bisect ver migrations version in
  let start := bisect ver migrations curr_version in
  sorted ver true (slice migrations end_ start).

(** up *)
Definition up (args : Namespace) : M unit :=
  migrations <- lift (rbind (_get_migrations_from_dir (migration_dir args))
                            (dict_get "up")) ;;
  let migrations := up_to_version (version args) migrations in
  '(date, curr_version, migration, migration_hash) <- select_latest ;;
  commit ;;;
  print (PrintHash migration_hash) ;;;
  print (CurrentlyAt curr_version migration date) ;;;
  let migrations := after_current curr_version migrations in
  run_queue migrations migration_hash.

(** down; argparse makes --version required. *)
Definition down (args : Namespace) : M unit :=
  migrations <- lift (rbind (_get_migrations_from_dir (migration_dir args))
                            (dict_get "down")) ;;
  target <- match version args with
            | Some v => ret v
            | None => raise (TypeError "'<' not supported between NoneType and int")
            end ;;
  '(date, curr_version, migration, migration_hash) <- select_latest ;;
  commit ;;;
  print (CurrentlyAt curr_version migration date) ;;;
  let migrations := down_select migrations target curr_version in
  run_queue migrations migration_hash.

(** for migr_type, migr_list in migrations.items(): ... *)
Fixpoint print_items (items : dict (list Migration)) : M unit :=
  match items with
  | [] => ret tt
  | (migr_type, migr_list) :: rest =>
      print (Header migr_type) ;;;
      print_listing migr_list ;;;
      print_items rest
  end.

(** list_migrations *)
Definition list_migrations (args : Namespace) : M unit :=
  migrations <- lift (_get_migrations_from_dir (migration_dir args)) ;;
  print_items migrations.

(** [n] invocations of [list], one after the other, whatever each ends
    with. *)
Fixpoint list_repeatedly (n : nat) (args : Namespace) (w : world) : world :=
  match n with
  | O => w
  | S n' => list_repeatedly n' args (snd (list_migrations args w))
  end.

End Runner.

(* ===================================================================== *)
(** ** Auxiliary definitions for the statements *)
(* ===================================================================== *)

(** The descriptors a directory parses to, in [iterdir] order. *)
Definition parsed (path : list File) : list Migration :=
  flat_map (fun f => match parse_file f with
                     | Ok (Some (_, migr)) => [migr]
                     | _ => []
                     end) path.

Definition is_up (m : Migration) : bool :=
  match type m with Up => true | Down => false end.

Definition is_down (m : Migration) : bool :=
  match type m with Up => false | Down => true end.

(** The highest version a sequence offers. *)
Definition highest_version (migrations : list Migration) : Z :=
  match migrations with
  | [] => 0
  | m :: rest => fold_left Z.max (map ver rest) (ver m)
  end.

(** The target of [up]: the one given, else the highest available. *)
Definition target_or_highest (version : option Z) (migrations : list Migration)
    : Z :=
  match version with
  | Some t => t
  | None => highest_version migrations
  end.

(** The migrations named by the "Applying" lines of an output. *)
Fixpoint applied (out : list line) : list Migration :=
  match out with
  | [] => []
  | Applying m :: out' => m :: applied out'
  | _ :: out' => applied out'
  end.

(** A multi-statement operation run to its end or to its first error. *)
Fixpoint run_statements {DB : Database} (stmts : list string) (t : tables)
    : tables + string :=
  match stmts with
  | [] => inl t
  | stmt :: rest =>
      match exec_stmt t stmt with
      | inl t' => run_statements rest t'
      | inr msg => inr msg
      end
  end.

(** What the text of a migration file does to the user's tables. *)
Definition run_query {DB : Database} (query : string) (t : tables)
    : tables + string :=
  match cursor_execute_multi query with
  | None => inl t
  | Some stmts => run_statements stmts t
  end.

(** What running the text of a migration file prints: the warning of
    line 287 when the operation is empty. *)
Definition warning_of {DB : Database} (query : string) : list line :=
  match cursor_execute_multi query with
  | None => [WarnEmpty]
  | Some _ => []
  end.

(** A computation that leaves the database as it found it, whatever it
    returns or raises. *)
Definition read_only {DB : Database} {A} (m : M A) : Prop :=
  forall w, committed (snd (m w)) = committed w /\
            session (snd (m w)) = session w.

(** A driver for the examples: the tables are the statements run so far,
    statements are separated by semicolons, and the statement "BAD" is
    refused. *)
Fixpoint split_semicolon (s : string) (cur : string) : list string :=
  match s with
  | EmptyString => [cur]
  | String c s' =>
      if Ascii.eqb c ";"%char then cur :: split_semicolon s' EmptyString
      else split_semicolon s' (cur ++ String c EmptyString)
  end.

Definition log_db : Database := {|
  tables := list string;
  statements := fun q => split_semicolon q EmptyString;
  exec_stmt := fun t stmt =>
    if String.eqb stmt "BAD" then inr "You have an error in your SQL syntax"
    else inl (t ++ [stmt])%list
|}.

Definition sql_file (n q : string) : File := {| name := n; text := q |}.

(** A database that [create] has initialised and that stands at version
    [v]. *)
Definition world_at (v : Z) : @world log_db :=
  let s :=
    @Build_store log_db
      [ {| r_date := 0; r_version := -1; r_migration := "__baseline__";
           r_migration_hash := "da39a3ee5e6b4b0d3255bfef95601890afd80709";
           r_schema_hash := None |};
        {| r_date := 1; r_version := v; r_migration := "V";
           r_migration_hash := "a9993e364706816aba3e25717850c26c9cd0d89d";
           r_schema_hash := None |} ]
      [] in
  @Build_world log_db s s 2%nat [].

(** A migration directory for the examples: four versions up and three
    down, listed in no particular order, next to an unrelated file. *)
Definition example_dir : list File :=
  [ sql_file "V2__add_col.sql" "ALTER TABLE a ADD b INT";
    sql_file "U1__init.sql" "DROP TABLE a";
    sql_file "README.md" "notes";
    sql_file "V1__init.sql" "CREATE TABLE a (x INT)";
    sql_file "V4__index.sql" "CREATE INDEX i ON a (x)";
    sql_file "U3__fill.sql" "DELETE FROM a";
    sql_file "V3__fill.sql" "INSERT INTO a VALUES (1, 2);INSERT INTO a VALUES (3, 4)";
    sql_file "U2__add_col.sql" "ALTER TABLE a DROP b" ].

(** The same versions up, the second with a statement the server refuses
    after one that it runs. *)
Definition failing_dir : list File :=
  [ sql_file "V1__init.sql" "CREATE TABLE a (x INT)";
    sql_file "V2__add_col.sql" "ALTER TABLE a ADD b INT;BAD;ALTER TABLE a ADD c INT";
    sql_file "V3__fill.sql" "INSERT INTO a VALUES (1, 2, 3)" ].

Definition up_migration (n : Z) (d : string) (f : File) : Migration :=
  {| type := Up; ver_from := n - 1; ver_to := n; desc := Some d; file := f |}.

Definition down_migration (n : Z) (d : string) (f : File) : Migration :=
  {| type := Down; ver_from := n; ver_to := n - 1; desc := Some d; file := f |}.

(** The sequences that the scan of [example_dir] returns. *)
Definition example_ups : list Migration :=
  sort_by ver (filter is_up (parsed example_dir)).

Definition example_downs : list Migration :=
  sort_by ver (filter is_down (parsed example_dir)).


(** Every character of a string passes a test. *)
Fixpoint all_chars (p : ascii -> bool) (s : string) : bool :=
  match s with
  | EmptyString => true
  | String c s' => p c && all_chars p s'
  end.

(* ===================================================================== *)
(** ** create *)
(* ===================================================================== *)

Definition dquote : string := String (ascii_of_nat 34) EmptyString.

(** MIGR_TABLE, line by line. *)
Definition MIGR_TABLE : string :=
  String.concat (String newline EmptyString)
    [ "";
      "    CREATE TABLE `_migration` (";
      "        `date` DATETIME(6) DEFAULT NOW(6),";
      "        `version` INT NOT NULL,";
      "        `migration` VARCHAR(255) NOT NULL,";
      "        `migration_hash` CHAR(40) COMMENT " ++ dquote
        ++ "Hash of SQL transaction used for migration + previous migration hash"
        ++ dquote ++ ",";
      "        `schema_hash` CHAR(40) COMMENT " ++ dquote
        ++ "[NOT IMPLEMENTED] Hash of full SHOW CREATE TABLE output post-migration"
        ++ dquote ++ ",";
      "        PRIMARY KEY (`date`)";
      "    )";
      "" ].

(** The statements [create] sends before it records the baseline. *)
Definition create_statements (db : string) : list string :=
  [ "CREATE DATABASE `" ++ db ++ "`"; "USE `" ++ db ++ "`"; MIGR_TABLE ].

(** create; [self_source] is what reading the program's own file in binary
    mode yields, [db] is args.db.  Each cursor.execute runs its one
    statement at once. *)
Definition create {DB : Database} (self_source : list Z) (db : string) : M unit :=
  let base_hash := SHA1.hexdigest self_source in
  bind (run_statement ("CREATE DATABASE `" ++ db ++ "`")) (fun _ =>
  bind (run_statement ("USE `" ++ db ++ "`")) (fun _ =>
  bind (run_statement MIGR_TABLE) (fun _ =>
  bind (_record_migration (-1) (PStr "__baseline__") base_hash) (fun _ =>
  commit)))).

(** The exception of Migration.__repr__ on a descriptor without
    description. *)
Definition repr_error : exn :=
  TypeError "unsupported format string passed to NoneType.__format__".

(** The subject left after a repetition starts with no character that the
    repetition could take. *)
Definition stops (a : atom) (rest : string) : bool :=
  match rest with
  | EmptyString => true
  | String c _ => negb (atom_ok a c)
  end.

(** The names of the two forms the grammar documents. *)
Definition plain_name (marker : ascii) (digits : string) : string :=
  String marker (digits ++ ".sql").

Definition described_name (marker : ascii) (digits description : string) : string :=
  String marker (digits ++ "__" ++ description ++ ".sql").

(** The descriptor [__init__] builds for a direction marker. *)
Definition descriptor (marker : ascii) (n : Z) (d : option string) (f : File)
    : Migration :=
  if Ascii.eqb marker "V" then
    {| type := Up; ver_from := n - 1; ver_to := n; desc := d; file := f |}
  else
    {| type := Down; ver_from := n; ver_to := n - 1; desc := d; file := f |}.

Definition marker_type (marker : ascii) : string :=
  if Ascii.eqb marker "V" then "up" else "down".

(** The row [create] records, at time [now]. *)
Definition baseline_row (now : nat) (self_source : list Z) : row :=
  {| r_date := now; r_version := -1; r_migration := "__baseline__";
     r_migration_hash := SHA1.hexdigest self_source; r_schema_hash := None |}.

(** Names of the shape MIGR_MATCH describes, written with the digits 0 to
    9: V or U, decimal digits, optionally two underscores and a
    description, then any one character and [sql]; no newline after the
    digits. *)
Definition accepted_name (s : string) : Prop :=
  exists marker digits tail c,
    s = String marker (digits ++ tail ++ String c "sql") /\
    (marker = "V"%char \/ marker = "U"%char) /\
    digits <> EmptyString /\ all_chars is_digit digits = true /\
    (tail = EmptyString \/
     exists d, tail = "__" ++ d /\ d <> EmptyString /\
               all_chars (atom_ok Any) d = true) /\
    atom_ok Any c = true.

(* ===================================================================== *)
(** * Properties *)
(* ===================================================================== *)

(** ** The file-name grammar on examples *)

Example fullmatch_described :
  fullmatch MIGR_MATCH "V2__add_col.sql"
  = Some [("desc", "add_col"); ("num", "2"); ("type", "V")].
Proof. reflexivity. Qed.

Example fullmatch_plain :
  fullmatch MIGR_MATCH "U10.sql" = Some [("num", "10"); ("type", "U")].
Proof. reflexivity. Qed.

Example fullmatch_other_marker : fullmatch MIGR_MATCH "R1__x.sql" = None.
Proof. reflexivity. Qed.

Example fullmatch_trailing_newline :
  fullmatch MIGR_MATCH (String.append "V1.sql" (String newline EmptyString)) = None.
Proof. reflexivity. Qed.

Example fullmatch_backtracks_digits :
  fullmatch MIGR_MATCH "V12sql" = Some [("num", "1"); ("type", "V")].
Proof. reflexivity. Qed.

(** ** Inversion of the matcher *)

Lemma plus_match_inv (a : atom) (s : string) :
  forall pos caps k r,
    plus_match a pos s caps k = Some r ->
    exists p rest,
      s = p ++ rest /\ p <> EmptyString /\ all_chars (atom_ok a) p = true /\
      k (pos + String.length p)%nat rest caps = Some r.
Proof.
  induction s as [|c s' IH]; intros pos caps k r H; simpl in H.
  - discriminate.
  - destruct (atom_ok a c) eqn:Hc; [|discriminate].
    destruct (plus_match a (S pos) s' caps k) as [r'|] eqn:Hrec.
    + apply IH in Hrec. destruct Hrec as (p & rest & -> & _ & Hall & Hk).
      exists (String c p), rest. simpl. rewrite Hc, Hall.
      repeat split; try congruence.
      replace (pos + S (String.length p))%nat with (S pos + String.length p)%nat by lia.
      congruence.
    + exists (String c EmptyString), s'. simpl. rewrite Hc.
      repeat split; try congruence.
      replace (pos + 1)%nat with (S pos) by lia. exact H.
Qed.

Lemma substring_prefix (p rest : string) :
  substring 0 (String.length p) (p ++ rest) = p.
Proof.
  induction p as [|c p IH]; simpl.
  - destruct rest; reflexivity.
  - now rewrite IH.
Qed.

Lemma extension_inv pos s caps r :
  rmatch (Atom Any ;; Lit "sql" ;; Eol)%regex pos s caps at_subject_end = Some r ->
  r = caps.
Proof.
  cbn [rmatch]. destruct s as [|c s']; [discriminate|].
  destruct (atom_ok Any c); [|discriminate].
  destruct (strip_prefix "sql" s') as [s''|]; [|discriminate].
  destruct (at_end s''); [|discriminate].
  unfold at_subject_end. destruct s''; congruence.
Qed.

Lemma description_inv pos s caps r :
  rmatch (Opt (Group None (Lit "__" ;; Group (Some "desc") (Plus Any))) ;;
          Atom Any ;; Lit "sql" ;; Eol)%regex pos s caps at_subject_end = Some r ->
  r = caps \/ exists d, r = ("desc", d) :: caps.
Proof.
  intros H. cbn [rmatch] in H.
  destruct (strip_prefix "__" s) as [s1|] eqn:Hpre.
  - match type of H with
    | match ?pm with _ => _ end = _ => destruct pm as [r'|] eqn:Hplus
    end.
    + injection H as <-. apply plus_match_inv in Hplus.
      destruct Hplus as (p & rest & _ & _ & _ & Hk).
      right. eexists. cbn [set_group] in Hk.
      apply (extension_inv _ _ _ _ Hk).
    + left. apply (extension_inv pos s caps r H).
  - left. apply (extension_inv pos s caps r H).
Qed.

Lemma MIGR_MATCH_inv (s : string) (m : captures) :
  fullmatch MIGR_MATCH s = Some m ->
  exists c digits,
    (c = "V"%char \/ c = "U"%char) /\
    group m "type" = Some (String c EmptyString) /\
    group m "num" = Some digits /\
    digits <> EmptyString /\ all_chars is_digit digits = true.
Proof.
  unfold fullmatch, MIGR_MATCH. intros H.
  cbn [rmatch Nat.eqb] in H.
  destruct s as [|c s']; [discriminate|].
  destruct (atom_ok (OneOf "UV") c) eqn:Hc; [|discriminate].
  apply plus_match_inv in H. destruct H as (p & rest & -> & Hne & Hall & Hk).
  cbn [set_group] in Hk.
  replace (1 + String.length p - 1)%nat with (String.length p) in Hk by lia.
  rewrite substring_prefix in Hk.
  exists c, p.
  assert (Hcv : c = "V"%char \/ c = "U"%char).
  { simpl in Hc. destruct (Ascii.eqb_spec c "U"); [now right|].
    destruct (Ascii.eqb_spec c "V"); [now left|discriminate]. }
  split; [exact Hcv|].
  assert (Hsub : substring 0 (1 - 0) (String c (p ++ rest)) = String c EmptyString).
  { simpl. destruct (p ++ rest); reflexivity. }
  rewrite Hsub in Hk.
  apply description_inv in Hk.
  unfold group.
  destruct Hk as [-> | [d ->]]; simpl; repeat split; auto.
Qed.

(** ** Parsing one directory entry *)

Lemma int_acc_digits (s : string) :
  all_chars is_digit s = true -> forall acc, exists n, int_acc s acc = Ok n.
Proof.
  induction s as [|c s IH]; simpl; intros H acc.
  - now exists acc.
  - apply andb_true_iff in H. destruct H as [Hc Hs]. rewrite Hc. apply IH, Hs.
Qed.

Lemma int_digits (s : string) :
  s <> EmptyString -> all_chars is_digit s = true -> exists n, int (Some s) = Ok n.
Proof.
  intros Hne Hall. destruct s as [|c s]; [congruence|].
  unfold int. apply int_acc_digits, Hall.
Qed.

(** A directory entry is skipped, or becomes an up descriptor, or becomes a
    down descriptor; scanning it raises nothing. *)
Lemma parse_file_cases (f : File) :
  parse_file f = Ok None \/
  exists n d,
    parse_file f
    = Ok (Some ("up", {| type := Up; ver_from := n - 1; ver_to := n;
                         desc := d; file := f |})) \/
    parse_file f
    = Ok (Some ("down", {| type := Down; ver_from := n; ver_to := n - 1;
                           desc := d; file := f |})).
Proof.
  unfold parse_file. destruct (fullmatch MIGR_MATCH (name f)) as [m|] eqn:Hm.
  - right. apply MIGR_MATCH_inv in Hm.
    destruct Hm as (c & digits & Hc & Hty & Hnum & Hne & Hall).
    destruct (int_digits digits Hne Hall) as [n Hn].
    exists n, (group m "desc"). rewrite Hty, Hnum, Hn.
    destruct Hc as [-> | ->]; [left | right]; reflexivity.
  - now left.
Qed.

Lemma parsed_cons (f : File) (path : list File) :
  parsed (f :: path)
  = (match parse_file f with
     | Ok (Some (_, migr)) => [migr]
     | _ => []
     end ++ parsed path)%list.
Proof. reflexivity. Qed.

Lemma scan_files_spec (path : list File) :
  forall ups downs,
    scan_files path [("up", ups); ("down", downs)]
    = Ok [("up", (ups ++ filter is_up (parsed path))%list);
          ("down", (downs ++ filter is_down (parsed path))%list)].
Proof.
  induction path as [|f path IH]; intros ups downs.
  - simpl. now rewrite !app_nil_r.
  - rewrite parsed_cons. cbn [scan_files]. unfold scan_file.
    destruct (parse_file_cases f) as [-> | (n & d & [-> | ->])]; cbn.
    + apply IH.
    + rewrite IH. now rewrite <- app_assoc.
    + rewrite IH. now rewrite <- app_assoc.
Qed.

Lemma _get_migrations_from_dir_spec (path : list File) :
  _get_migrations_from_dir path
  = Ok [("up", sort_by ver (filter is_up (parsed path)));
        ("down", sort_by ver (filter is_down (parsed path)))].
Proof.
  unfold _get_migrations_from_dir. cbn [PREFIX_TO_TYPE dict_values map snd].
  rewrite scan_files_spec. reflexivity.
Qed.

(** ** The stable sort *)

Section SortFacts.
Context {A : Type} (key : A -> Z).

Lemma insert_by_perm (x : A) (l : list A) :
  Permutation (insert_by key x l) (x :: l).
Proof.
  induction l as [|y l IH]; simpl.
  - apply Permutation_refl.
  - destruct (key x <=? key y).
    + apply Permutation_refl.
    + rewrite IH. apply perm_swap.
Qed.

Lemma sort_by_perm (l : list A) : Permutation (sort_by key l) l.
Proof.
  induction l as [|x l IH]; simpl.
  - constructor.
  - rewrite insert_by_perm. now constructor.
Qed.

Lemma insert_by_ascending (x : A) (l : list A) :
  ascending key l -> ascending key (insert_by key x l).
Proof.
  unfold ascending. induction l as [|y l IH]; simpl; intros H.
  - repeat constructor.
  - apply StronglySorted_inv in H. destruct H as [Hl Hy].
    destruct (Z.leb_spec (key x) (key y)).
    + constructor; [constructor; assumption|].
      constructor; [assumption|].
      eapply Forall_impl; [|exact Hy]. simpl. intros; lia.
    + constructor; [now apply IH|].
      eapply Permutation_Forall; [symmetry; apply insert_by_perm|].
      constructor; [lia | assumption].
Qed.

Lemma sort_by_ascending (l : list A) : ascending key (sort_by key l).
Proof.
  induction l as [|x l IH]; simpl.
  - constructor.
  - now apply insert_by_ascending.
Qed.

Lemma ascending_app (l1 l2 : list A) :
  ascending key l1 -> ascending key l2 ->
  (forall a b, In a l1 -> In b l2 -> key a <= key b) ->
  ascending key (l1 ++ l2).
Proof.
  unfold ascending. induction l1 as [|x l1 IH]; simpl; intros H1 H2 H12.
  - assumption.
  - apply StronglySorted_inv in H1. destruct H1 as [Hl Hx].
    constructor.
    + apply IH; auto.
    + apply Forall_app. split; [assumption|].
      apply Forall_forall. intros b Hb. apply H12; auto.
Qed.

Lemma descending_snoc (x : A) (l : list A) :
  descending key l -> Forall (fun b => key x <= key b) l ->
  descending key (l ++ [x]).
Proof.
  unfold descending. induction 1 as [|y l Hl IH Hy]; simpl; intros Hx.
  - repeat constructor.
  - apply Forall_inv_tail in Hx as Hxl. apply Forall_inv in Hx.
    constructor; [now apply IH|].
    apply Forall_app. split; [assumption|]. repeat constructor; assumption.
Qed.

Lemma descending_rev (l : list A) : ascending key l -> descending key (rev l).
Proof.
  unfold ascending. induction 1 as [|x l Hl IH Hx]; simpl.
  - constructor.
  - apply descending_snoc; [exact IH|]. now apply Forall_rev.
Qed.

Lemma ascending_filter (P : A -> bool) (l : list A) :
  ascending key l -> ascending key (filter P l).
Proof.
  unfold ascending. induction 1 as [|x l Hl IH Hx]; simpl.
  - constructor.
  - destruct (P x); [|exact IH].
    constructor; [exact IH|].
    rewrite Forall_forall in *. intros b Hb. apply Hx.
    apply filter_In in Hb. tauto.
Qed.

Lemma ascending_ext (key' : A -> Z) (l : list A) :
  Forall (fun a => key a = key' a) l -> ascending key l -> ascending key' l.
Proof.
  unfold ascending. intros Hk H. induction H as [|x l Hl IH Hx].
  - constructor.
  - apply Forall_inv_tail in Hk as Hkl. apply Forall_inv in Hk.
    constructor; [now apply IH|].
    rewrite Forall_forall in *. intros b Hb.
    rewrite <- Hk, <- (Hkl b Hb). now apply Hx.
Qed.

Lemma descending_ext (key' : A -> Z) (l : list A) :
  Forall (fun a => key a = key' a) l -> descending key l -> descending key' l.
Proof.
  unfold descending. intros Hk H. induction H as [|x l Hl IH Hx].
  - constructor.
  - apply Forall_inv_tail in Hk as Hkl. apply Forall_inv in Hk.
    constructor; [now apply IH|].
    rewrite Forall_forall in *. intros b Hb.
    rewrite <- Hk, <- (Hkl b Hb). now apply Hx.
Qed.
End SortFacts.

(** ** bisect on an ascending list *)

Section BisectFacts.
Context {A : Type} (key : A -> Z).

Lemma ascending_nth (a : list A) :
  ascending key a ->
  forall i j y z,
    (i <= j)%nat -> nth_error a i = Some y -> nth_error a j = Some z ->
    key y <= key z.
Proof.
  unfold ascending. induction 1 as [|x l Hl IH Hx]; intros i j y z Hij Hi Hj.
  - destruct i; discriminate.
  - destruct i as [|i], j as [|j]; simpl in *.
    + injection Hi as <-. injection Hj as <-. lia.
    + injection Hi as <-. rewrite Forall_forall in Hx.
      apply Hx. eapply nth_error_In; eassumption.
    + lia.
    + eapply IH; [|eassumption..]. lia.
Qed.

(** What the loop keeps true and what it returns: everything before the
    result is at most [x], everything from the result on is above. *)
Lemma bisect_loop_spec (a : list A) (x : Z) (lo hi : nat) :
  ascending key a ->
  (lo <= hi <= List.length a)%nat ->
  (forall i y, (i < lo)%nat -> nth_error a i = Some y -> key y <= x) ->
  (forall i y, (hi <= i)%nat -> nth_error a i = Some y -> x < key y) ->
  let r := bisect_loop key a x lo hi in
  (lo <= r <= hi)%nat /\
  (forall i y, (i < r)%nat -> nth_error a i = Some y -> key y <= x) /\
  (forall i y, (r <= i)%nat -> nth_error a i = Some y -> x < key y).
Proof.
  intros Hasc. funelim (bisect_loop key a x lo hi); intros Hb Hlo Hhi;
    cbv zeta;
    try assert (Hmid : (lo <= (lo + hi) / 2 < hi)%nat)
      by (pose proof (Nat.div_mod_eq (lo + hi) 2);
          pose proof (Nat.mod_upper_bound (lo + hi) 2); lia).
  - (* lo >= hi *)
    split; [lia|]. split; [exact Hlo|].
    intros i y Hi. apply Hhi. lia.
  - (* a[mid] out of range: excluded by mid < hi <= len(a) *)
    exfalso.
    match goal with E : nth_error _ _ = None |- _ => apply nth_error_None in E end.
    lia.
  - (* x < key(a[mid]): hi = mid *)
    match goal with E : nth_error _ _ = Some _ |- _ => rename E into Hy end.
    match goal with IH : ascending _ _ -> _ |- _ =>
      destruct (IH Hasc) as (Hr & Hbelow & Habove); clear IH
    end.
    + lia.
    + exact Hlo.
    + intros i z Hi Hz.
      pose proof (ascending_nth a Hasc _ _ _ _ Hi Hy Hz). lia.
    + split; [lia|]. split; assumption.
  - (* otherwise: lo = mid + 1 *)
    match goal with E : nth_error _ _ = Some _ |- _ => rename E into Hy end.
    match goal with IH : ascending _ _ -> _ |- _ =>
      destruct (IH Hasc) as (Hr & Hbelow & Habove); clear IH
    end.
    + lia.
    + intros i z Hi Hz.
      assert (Hi' : (i <= (lo + hi) / 2)%nat) by lia.
      pose proof (ascending_nth a Hasc _ _ _ _ Hi' Hz Hy). lia.
    + exact Hhi.
    + split; [lia|]. split; assumption.
Qed.

Lemma bisect_spec (a : list A) (x : Z) :
  ascending key a ->
  (bisect key a x <= List.length a)%nat /\
  (forall i y, (i < bisect key a x)%nat -> nth_error a i = Some y -> key y <= x) /\
  (forall i y, (bisect key a x <= i)%nat -> nth_error a i = Some y -> x < key y).
Proof.
  intros Hasc. unfold bisect.
  destruct (bisect_loop_spec a x 0 (List.length a) Hasc) as (Hr & Hb & Ha).
  - lia.
  - intros i y Hi. lia.
  - intros i y Hi Hy. assert (nth_error a i = None) by (apply nth_error_None; lia).
    congruence.
  - repeat split; [lia | exact Hb | exact Ha].
Qed.

(** A slice between two cut points is a filter. *)
Lemma slice_filter (P Q : A -> bool) (a : list A) :
  forall e s,
    (forall i y, (i < e)%nat -> nth_error a i = Some y -> P y = false) ->
    (forall i y, (e <= i)%nat -> nth_error a i = Some y -> P y = true) ->
    (forall i y, (i < s)%nat -> nth_error a i = Some y -> Q y = true) ->
    (forall i y, (s <= i)%nat -> nth_error a i = Some y -> Q y = false) ->
    slice a e s = filter (fun y => P y && Q y) a.
Proof.
  unfold slice. induction a as [|y a IH]; intros e s He1 He2 Hs1 Hs2.
  - now rewrite skipn_nil, firstn_nil.
  - assert (Htail : forall (R : A -> Prop) n,
               (forall i z, (S n <= i)%nat -> nth_error (y :: a) i = Some z -> R z) ->
               forall i z, (n <= i)%nat -> nth_error a i = Some z -> R z).
    { intros R n H i z Hi Hz. apply (H (S i)); [lia | exact Hz]. }
    assert (Hhead : forall (R : A -> Prop) n,
               (forall i z, (i < S n)%nat -> nth_error (y :: a) i = Some z -> R z) ->
               forall i z, (i < n)%nat -> nth_error a i = Some z -> R z).
    { intros R n H i z Hi Hz. apply (H (S i)); [lia | exact Hz]. }
    destruct e as [|e], s as [|s]; cbn [skipn filter].
    + rewrite (Hs2 0%nat y) by (auto with arith). rewrite andb_false_r.
      rewrite <- (IH 0%nat 0%nat); [reflexivity | ..].
      * intros i z Hi. lia.
      * intros i z _ Hz. apply (He2 (S i)); [lia | exact Hz].
      * intros i z Hi. lia.
      * intros i z _ Hz. apply (Hs2 (S i)); [lia | exact Hz].
    + rewrite (He2 0%nat y), (Hs1 0%nat y) by (simpl; auto with arith).
      cbn [andb]. replace (S s - 0)%nat with (S s) by lia. cbn [firstn].
      f_equal. rewrite <- (IH 0%nat s).
      * cbn [skipn]. now replace (s - 0)%nat with s by lia.
      * intros i z Hi. lia.
      * intros i z _ Hz. apply (He2 (S i)); [lia | exact Hz].
      * apply (Hhead (fun z => Q z = true)), Hs1.
      * apply (Htail (fun z => Q z = false)), Hs2.
    + rewrite (Hs2 0%nat y) by (simpl; auto with arith). rewrite andb_false_r.
      cbn [Nat.sub firstn].
      rewrite <- (IH e 0%nat); [cbn [Nat.sub firstn]; reflexivity | ..].
      * apply (Hhead (fun z => P z = false)), He1.
      * apply (Htail (fun z => P z = true)), He2.
      * intros i z Hi. lia.
      * intros i z _ Hz. apply (Hs2 (S i)); [lia | exact Hz].
    + rewrite (He1 0%nat y) by (simpl; auto with arith). cbn [andb Nat.sub].
      apply IH.
      * apply (Hhead (fun z => P z = false)), He1.
      * apply (Htail (fun z => P z = true)), He2.
      * apply (Hhead (fun z => Q z = true)), Hs1.
      * apply (Htail (fun z => Q z = false)), Hs2.
Qed.
End BisectFacts.

(** ** The queues of [up] and [down] *)

Section SelectionFacts.
Context {A : Type} (key : A -> Z).

Lemma firstn_bisect (a : list A) (x : Z) :
  ascending key a ->
  firstn (bisect key a x) a = filter (fun y => key y <=? x) a.
Proof.
  intros Hasc. destruct (bisect_spec key a x Hasc) as (_ & Hb & Ha).
  replace (firstn (bisect key a x) a) with (slice a 0 (bisect key a x))
    by (unfold slice; cbn [skipn]; now rewrite Nat.sub_0_r).
  apply (slice_filter (fun _ => true) (fun y => key y <=? x)).
  - intros i y Hi. lia.
  - reflexivity.
  - intros i y Hi Hy. apply Z.leb_le. eauto.
  - intros i y Hi Hy. apply Z.leb_gt. eauto.
Qed.

Lemma skipn_bisect (a : list A) (x : Z) :
  ascending key a ->
  skipn (bisect key a x) a = filter (fun y => x <? key y) a.
Proof.
  intros Hasc. destruct (bisect_spec key a x Hasc) as (Hlen & Hb & Ha).
  replace (skipn (bisect key a x) a)
    with (slice a (bisect key a x) (List.length a))
    by (unfold slice; apply firstn_all2; rewrite length_skipn; lia).
  rewrite (filter_ext (fun y => x <? key y)
             (fun y => (x <? key y) && (fun _ => true) y))
    by (intros y; now rewrite andb_true_r).
  apply slice_filter.
  - intros i y Hi Hy. apply Z.ltb_ge. eauto.
  - intros i y Hi Hy. apply Z.ltb_lt. eauto.
  - reflexivity.
  - intros i y Hi Hy.
    assert (nth_error a i = None) by (apply nth_error_None; lia). congruence.
Qed.

Lemma slice_bisect (a : list A) (t c : Z) :
  ascending key a ->
  slice a (bisect key a t) (bisect key a c)
  = filter (fun y => (t <? key y) && (key y <=? c)) a.
Proof.
  intros Hasc.
  destruct (bisect_spec key a t Hasc) as (_ & Hbt & Hat).
  destruct (bisect_spec key a c Hasc) as (_ & Hbc & Hac).
  apply slice_filter.
  - intros i y Hi Hy. apply Z.ltb_ge. eauto.
  - intros i y Hi Hy. apply Z.ltb_lt. eauto.
  - intros i y Hi Hy. apply Z.leb_le. eauto.
  - intros i y Hi Hy. apply Z.leb_gt. eauto.
Qed.

Lemma filter_filter (P Q : A -> bool) (l : list A) :
  filter P (filter Q l) = filter (fun y => P y && Q y) l.
Proof.
  induction l as [|x l IH]; simpl; [reflexivity|].
  destruct (Q x); simpl; rewrite ?andb_true_r, ?andb_false_r;
    [destruct (P x)|]; now rewrite IH.
Qed.

Lemma filter_none (P : A -> bool) (l : list A) :
  (forall y, P y = false) -> filter P l = [].
Proof.
  intros H. induction l as [|x l IH]; simpl; [reflexivity|]. now rewrite H.
Qed.

Lemma sorted_reverse_perm (l : list A) : Permutation (sorted key true l) l.
Proof.
  unfold sorted. rewrite <- Permutation_rev, sort_by_perm.
  symmetry. apply Permutation_rev.
Qed.

Lemma sorted_reverse_descending (l : list A) : descending key (sorted key true l).
Proof. unfold sorted. apply descending_rev, sort_by_ascending. Qed.
End SelectionFacts.

Lemma ver_up (l : list Migration) :
  Forall (fun m => type m = Up) l -> Forall (fun m => ver_to m = ver m) l.
Proof.
  apply Forall_impl. intros m H. unfold ver. now rewrite H.
Qed.

Lemma ver_down (l : list Migration) :
  Forall (fun m => type m = Down) l -> Forall (fun m => ver_from m = ver m) l.
Proof.
  apply Forall_impl. intros m H. unfold ver. now rewrite H.
Qed.

Lemma fold_max_ge (l : list Z) :
  forall acc, acc <= fold_left Z.max l acc /\
              forall v, In v l -> v <= fold_left Z.max l acc.
Proof.
  induction l as [|x l IH]; simpl; intros acc.
  - split; [lia | tauto].
  - destruct (IH (Z.max acc x)) as [Hacc Hin]. split; [lia|].
    intros v [<- | Hv]; [lia | auto].
Qed.

Lemma highest_version_ge (l : list Migration) (m : Migration) :
  In m l -> ver m <= highest_version l.
Proof.
  destruct l as [|x l]; simpl; [tauto|].
  destruct (fold_max_ge (map ver l) (ver x)) as [Hx Hl].
  intros [<- | Hm]; [exact Hx|]. apply Hl. now apply in_map.
Qed.

Lemma up_select_filter (migrations : list Migration) (version : option Z) (c : Z) :
  ascending ver migrations ->
  up_select migrations version c
  = filter (fun m => (c <? ver m)
                     && (ver m <=? target_or_highest version migrations))
      migrations.
Proof.
  intros Hasc. unfold up_select, after_current, up_to_version.
  destruct version as [t|]; simpl.
  - rewrite (firstn_bisect ver migrations t Hasc).
    rewrite skipn_bisect by (now apply ascending_filter).
    apply filter_filter.
  - rewrite (skipn_bisect ver migrations c Hasc).
    apply filter_ext_in. intros m Hm.
    apply highest_version_ge in Hm.
    replace (ver m <=? highest_version migrations) with true
      by (symmetry; apply Z.leb_le; exact Hm).
    now rewrite andb_true_r.
Qed.

Lemma down_select_perm (migrations : list Migration) (t c : Z) :
  ascending ver migrations ->
  Permutation (down_select migrations t c)
    (filter (fun m => (t <? ver m) && (ver m <=? c)) migrations).
Proof.
  intros Hasc. unfold down_select.
  rewrite sorted_reverse_perm. now rewrite slice_bisect.
Qed.

Lemma scanned_up (path : list File) (m : Migration) :
  In m (sort_by ver (filter is_up (parsed path))) ->
  In m (parsed path) /\ type m = Up.
Proof.
  intros H. apply (Permutation_in _ (sort_by_perm ver _)) in H.
  apply filter_In in H. unfold is_up in H.
  destruct (type m); [tauto | destruct H; discriminate].
Qed.

Lemma scanned_down (path : list File) (m : Migration) :
  In m (sort_by ver (filter is_down (parsed path))) ->
  In m (parsed path) /\ type m = Down.
Proof.
  intros H. apply (Permutation_in _ (sort_by_perm ver _)) in H.
  apply filter_In in H. unfold is_down in H.
  destruct (type m); [destruct H; discriminate | tauto].
Qed.

(** ** Running migrations *)

Section RunnerFacts.
Context {DB : Database}.

Lemma consume_run (stmts : list string) :
  forall w,
    match run_statements stmts (user (session w)) with
    | inl t =>
        exists w',
          consume stmts w = (Ok tt, w') /\
          committed w' = committed w /\
          _migration (session w') = _migration (session w) /\
          user (session w') = t /\
          clock w' = clock w /\ stdout w' = stdout w
    | inr msg =>
        exists w',
          consume stmts w = (Raise (DatabaseError msg), w') /\
          committed w' = committed w /\
          _migration (session w') = _migration (session w) /\
          clock w' = clock w /\ stdout w' = stdout w
    end.
Proof.
  induction stmts as [|stmt rest IH]; intros w; simpl.
  - exists w. unfold ret. repeat split; reflexivity.
  - unfold bind, run_statement.
    destruct (exec_stmt (user (session w)) stmt) as [t|msg] eqn:Hstmt.
    + match goal with |- context [consume rest ?w1] => specialize (IH w1) end.
      simpl in IH. destruct (run_statements rest t) as [t'|msg].
      * destruct IH as (w' & -> & ? & ? & ? & ? & ?). exists w'. auto 10.
      * destruct IH as (w' & -> & ? & ? & ? & ?). exists w'. auto 10.
    + exists w. repeat split; reflexivity.
Qed.

(** _apply_migration never returns.  When every statement of the file
    runs, the path passed at line 295 is refused by the driver before the
    INSERT is sent: the statements stay in the open transaction and no row
    reaches the ledger.  When a statement fails, its error is raised. *)
Lemma _apply_migration_run (m : Migration) (h : string) (w : world) :
  match run_query (text (file m)) (user (session w)) with
  | inl t =>
      _apply_migration m h w
      = (Raise path_refused,
         {| committed := committed w;
            session := {| _migration := _migration (session w); user := t |};
            clock := S (clock w);
            stdout := (stdout w ++ warning_of (text (file m)))%list |})
  | inr msg =>
      exists w',
        _apply_migration m h w = (Raise (DatabaseError msg), w') /\
        committed w' = committed w /\
        _migration (session w') = _migration (session w) /\
        clock w' = clock w /\ stdout w' = stdout w
  end.
Proof.
  unfold run_query, warning_of, _apply_migration.
  destruct (cursor_execute_multi (text (file m))) as [stmts|].
  - pose proof (consume_run stmts w) as Hc.
    destruct (run_statements stmts (user (session w))) as [t|msg].
    + destruct Hc as (w1 & Hrun & Hcom & Hled & Husr & Hclk & Hout).
      unfold bind at 1. rewrite Hrun.
      destruct w1 as [c1 [l1 u1] k1 o1]. cbn in Hcom, Hled, Husr, Hclk, Hout.
      subst. rewrite app_nil_r. reflexivity.
    + destruct Hc as (w1 & Hrun & Hcom & Hled & Hclk & Hout).
      unfold bind at 1. rewrite Hrun.
      exists w1. repeat split; assumption.
  - destruct w as [c [l u] k o]. reflexivity.
Qed.

Lemma applied_app (a b : list line) :
  applied (a ++ b) = (applied a ++ applied b)%list.
Proof.
  induction a as [|l a IH]; simpl; [reflexivity|].
  destruct l; simpl; congruence.
Qed.

(** One turn of the loop of lines 176-181. *)
Lemma apply_all_cons (m : Migration) (rest : list Migration) (h : string)
    (w : world) :
  apply_all (m :: rest) h w
  = match _apply_migration m h (snd (print (Applying m) w)) with
    | (Ok h', w') => apply_all rest h' (snd (print Done (snd (commit w'))))
    | (Raise e, w') => (Raise e, w')
    end.
Proof.
  cbn [apply_all]. unfold bind at 1. cbn [print snd].
  unfold bind at 1. destruct (_apply_migration m h _) as [[h'|e] w']; reflexivity.
Qed.

(** The loop stops in its first turn: it prints the "Applying" line of the
    first migration of the queue and ends with the exception of
    [_apply_migration], before the commit of line 180. *)
Lemma apply_all_stops (m : Migration) (rest : list Migration) (h : string)
    (w : world) :
  match run_query (text (file m)) (user (session w)) with
  | inl t =>
      apply_all (m :: rest) h w
      = (Raise path_refused,
         {| committed := committed w;
            session := {| _migration := _migration (session w); user := t |};
            clock := S (clock w);
            stdout := (stdout w ++ [Applying m] ++ warning_of (text (file m)))%list |})
  | inr msg =>
      exists w',
        apply_all (m :: rest) h w = (Raise (DatabaseError msg), w') /\
        committed w' = committed w /\
        _migration (session w') = _migration (session w) /\
        clock w' = clock w /\
        stdout w' = (stdout w ++ [Applying m])%list
  end.
Proof.
  rewrite apply_all_cons.
  pose proof (_apply_migration_run m h (snd (print (Applying m) w))) as Hm.
  cbn [print snd committed session clock stdout user] in Hm. cbn [print snd].
  destruct (run_query (text (file m)) (user (session w))) as [t|msg].
  - rewrite Hm. now rewrite <- app_assoc.
  - destruct Hm as (w' & -> & Hcom & Hled & Hclk & Hout).
    exists w'. auto.
Qed.

(** Whatever the queue, the loop commits nothing and leaves the ledger as
    it is. *)
Lemma apply_all_frame (queue : list Migration) (h : string) (w : world) :
  committed (snd (apply_all queue h w)) = committed w /\
  _migration (session (snd (apply_all queue h w))) = _migration (session w).
Proof.
  destruct queue as [|m rest]; [split; reflexivity|].
  pose proof (apply_all_stops m rest h w) as Hm.
  destruct (run_query (text (file m)) (user (session w))) as [t|msg].
  - rewrite Hm. split; reflexivity.
  - destruct Hm as (w' & -> & Hcom & Hled & _). split; assumption.
Qed.
End RunnerFacts.

(** ** The commands, unfolded *)

Section CommandFacts.
Context {DB : Database}.

(** [up] reads the ledger, commits, reports where it stands and runs the
    queue it selected. *)
Lemma up_run (args : Namespace) (w : world) (r : row) :
  latest (_migration (session w)) = Some r ->
  up args w
  = run_queue
      (up_select (sort_by ver (filter is_up (parsed (migration_dir args))))
         (version args) (r_version r))
      (r_migration_hash r)
      {| committed := session w; session := session w; clock := clock w;
         stdout := (stdout w ++ [PrintHash (r_migration_hash r)]
                    ++ [CurrentlyAt (r_version r) (r_migration r) (r_date r)])%list |}.
Proof.
  intros Hr. unfold up. rewrite _get_migrations_from_dir_spec.
  cbn [rbind dict_get dict_find String.eqb Ascii.eqb Bool.eqb].
  unfold bind at 1. cbn [lift].
  unfold bind at 1. unfold select_latest at 1. rewrite Hr.
  unfold bind at 1. cbn [commit]. unfold bind at 1. cbn [print].
  unfold bind at 1. cbn [print committed session clock stdout].
  unfold up_select. now rewrite <- app_assoc.
Qed.

Lemma down_run (args : Namespace) (w : world) (r : row) (t : Z) :
  version args = Some t ->
  latest (_migration (session w)) = Some r ->
  down args w
  = run_queue
      (down_select (sort_by ver (filter is_down (parsed (migration_dir args))))
         t (r_version r))
      (r_migration_hash r)
      {| committed := session w; session := session w; clock := clock w;
         stdout := (stdout w
                    ++ [CurrentlyAt (r_version r) (r_migration r) (r_date r)])%list |}.
Proof.
  intros Hv Hr. unfold down. rewrite _get_migrations_from_dir_spec, Hv.
  cbn [rbind dict_get dict_find String.eqb Ascii.eqb Bool.eqb].
  unfold bind at 1. cbn [lift].
  unfold bind at 1. cbn [ret].
  unfold bind at 1. unfold select_latest at 1. rewrite Hr.
  unfold bind at 1. cbn [commit]. unfold bind at 1. cbn [print].
  reflexivity.
Qed.

Lemma print_listing_cons (m : Migration) (ms : list Migration) (w : world) :
  print_listing (m :: ms) w
  = match Migration_repr m with
    | Ok shown => print_listing ms (snd (print (Listing shown) w))
    | Raise e => (Raise e, w)
    end.
Proof.
  cbn [print_listing]. unfold bind at 1. unfold lift.
  destruct (Migration_repr m); reflexivity.
Qed.

(** Listing a queue prints every line when each migration has a
    description, and otherwise raises before anything is applied; it
    does not touch the database either way. *)
Lemma print_listing_run (ms : list Migration) :
  forall w,
    (Forall (fun m => desc m <> None) ms /\
     print_listing ms w
     = (Ok tt, {| committed := committed w; session := session w;
                  clock := clock w;
                  stdout := (stdout w ++ map Listing ms)%list |})) \/
    (exists e w',
       print_listing ms w = (Raise e, w') /\
       committed w' = committed w /\ session w' = session w /\
       clock w' = clock w /\
       applied (stdout w') = applied (stdout w)).
Proof.
  induction ms as [|m ms IH]; intros w.
  - left. split; [constructor|]. simpl. unfold ret. rewrite app_nil_r.
    now destruct w.
  - rewrite print_listing_cons. unfold Migration_repr.
    destruct (desc m) as [d|] eqn:Hd.
    + cbn [print snd].
      match goal with |- context [print_listing ms ?w1] =>
        destruct (IH w1) as [[Hall ->] | (e & w' & -> & Hc & Hs & Hk & Ho)]
      end.
      * left. split; [constructor; [congruence | exact Hall]|].
        cbn [committed session clock stdout map]. now rewrite <- app_assoc.
      * right. exists e, w'. cbn [committed session clock stdout] in *.
        rewrite applied_app in Ho. simpl in Ho. rewrite app_nil_r in Ho.
        auto 10.
    + right. do 2 eexists. split; [reflexivity|]. auto.
Qed.

Lemma applied_listing (ms : list Migration) : applied (map Listing ms) = [].
Proof. induction ms; simpl; auto. Qed.

Lemma print_listing_described (ms : list Migration) :
  Forall (fun m => desc m <> None) ms ->
  forall w,
    print_listing ms w
    = (Ok tt, {| committed := committed w; session := session w;
                 clock := clock w;
                 stdout := (stdout w ++ map Listing ms)%list |}).
Proof.
  induction 1 as [|m ms Hm _ IH]; intros w.
  - simpl. unfold ret. rewrite app_nil_r. now destruct w.
  - rewrite print_listing_cons. unfold Migration_repr.
    destruct (desc m) as [d|]; [|congruence].
    cbn [print snd]. rewrite IH. cbn [committed session clock stdout map].
    now rewrite <- app_assoc.
Qed.

(** The run of a queue that is not empty. *)
Lemma run_queue_cons (m : Migration) (ms : list Migration) (h : string) (w : world) :
  run_queue (m :: ms) h w
  = match print_listing (m :: ms) (snd (print (ToApply (List.length (m :: ms))) w)) with
    | (Ok _, w1) =>
        match apply_all (m :: ms) h w1 with
        | (Ok _, w2) => print AllDone w2
        | (Raise e, w2) => (Raise e, w2)
        end
    | (Raise e, w1) => (Raise e, w1)
    end.
Proof.
  cbn [run_queue]. unfold bind at 1. cbn [print snd]. unfold bind at 1.
  destruct (print_listing _ _) as [[[]|e] w1]; [|reflexivity].
  unfold bind at 1. destruct (apply_all _ _ _) as [[h'|e] w2]; reflexivity.
Qed.

(** A queue of described migrations is listed, and the run ends in the
    first turn of the loop: with the driver's refusal of the path when the
    statements of the first migration run, with the server's error
    otherwise.  Nothing is committed and the ledger gets no row. *)
Lemma run_queue_stops (m : Migration) (rest : list Migration) (h : string)
    (w : world) :
  Forall (fun m => desc m <> None) (m :: rest) ->
  match run_query (text (file m)) (user (session w)) with
  | inl t =>
      run_queue (m :: rest) h w
      = (Raise path_refused,
         {| committed := committed w;
            session := {| _migration := _migration (session w); user := t |};
            clock := S (clock w);
            stdout := (stdout w ++ [ToApply (List.length (m :: rest))]
                       ++ map Listing (m :: rest) ++ [Applying m]
                       ++ warning_of (text (file m)))%list |})
  | inr msg =>
      exists w',
        run_queue (m :: rest) h w = (Raise (DatabaseError msg), w') /\
        committed w' = committed w /\
        _migration (session w') = _migration (session w) /\
        clock w' = clock w /\
        stdout w' = (stdout w ++ [ToApply (List.length (m :: rest))]
                     ++ map Listing (m :: rest) ++ [Applying m])%list
  end.
Proof.
  intros Hdesc. rewrite run_queue_cons. cbn [print snd].
  rewrite (print_listing_described _ Hdesc). cbn [committed session clock stdout].
  match goal with |- context [apply_all _ h ?w1] =>
    pose proof (apply_all_stops m rest h w1) as Hm
  end.
  cbn [committed session clock stdout user] in Hm.
  destruct (run_query (text (file m)) (user (session w))) as [t|msg].
  - rewrite Hm. now rewrite <- !app_assoc.
  - destruct Hm as (w' & -> & Hcom & Hled & Hclk & Hout).
    exists w'. rewrite Hout, <- !app_assoc. auto.
Qed.

(** Whatever the queue, its run commits nothing and leaves the ledger as
    it is. *)
Lemma run_queue_frame (queue : list Migration) (h : string) (w : world) :
  committed (snd (run_queue queue h w)) = committed w /\
  _migration (session (snd (run_queue queue h w))) = _migration (session w).
Proof.
  destruct queue as [|m rest]; [split; reflexivity|].
  rewrite run_queue_cons. cbn [print snd].
  match goal with |- context [print_listing ?q ?w1] =>
    destruct (print_listing_run q w1) as [[_ ->] | (e & w' & -> & Hc & Hs & _)]
  end.
  - match goal with |- context [apply_all ?q h ?w1] =>
      destruct (apply_all_frame q h w1) as [Hc Hl];
      destruct (apply_all q h w1) as [[h'|e] w2]
    end; cbn [print snd committed session] in *; split; assumption.
  - cbn [snd committed session] in *. rewrite Hc, Hs. split; reflexivity.
Qed.
End CommandFacts.

(* ===================================================================== *)
(** * Main results *)
(* ===================================================================== *)

(** ** Descriptors *)

(** C6.  A descriptor parsed from a file name whose captured number is [n]
    goes from [n - 1] to [n] when its direction is up and from [n] to
    [n - 1] when its direction is down. *)
Theorem version_arithmetic (f : File) (migr_type : string) (m : Migration)
    (Hparsed : parse_file f = Ok (Some (migr_type, m))) :
  exists caps n,
    fullmatch MIGR_MATCH (name f) = Some caps /\
    int (group caps "num") = Ok n /\
    (type m = Up -> ver_from m = n - 1 /\ ver_to m = n) /\
    (type m = Down -> ver_from m = n /\ ver_to m = n - 1).
Proof.
  unfold parse_file in Hparsed.
  destruct (fullmatch MIGR_MATCH (name f)) as [caps|] eqn:Hm; [|discriminate].
  pose proof (MIGR_MATCH_inv _ _ Hm) as (c & digits & Hc & Hty & Hnum & Hne & Hall).
  destruct (int_digits digits Hne Hall) as [n Hn].
  exists caps, n. split; [reflexivity|]. rewrite Hnum. split; [exact Hn|].
  rewrite Hty, Hnum, Hn in Hparsed.
  destruct Hc as [-> | ->]; cbn in Hparsed; injection Hparsed as _ <-; simpl;
    split; intros; (discriminate || auto).
Qed.

Lemma version_arithmetic_witness :
  exists caps n,
    fullmatch MIGR_MATCH "U3__fill.sql" = Some caps /\
    int (group caps "num") = Ok n /\
    (Down = Up -> 3 = n - 1 /\ 3 - 1 = n) /\
    (Down = Down -> 3 = n /\ 3 - 1 = n - 1).
Proof.
  exact (version_arithmetic (sql_file "U3__fill.sql" "DELETE FROM a") "down"
           (down_migration 3 "fill" (sql_file "U3__fill.sql" "DELETE FROM a"))
           eq_refl).
Defined.

(** C10.  The single version number [ver] of a descriptor built with
    direction up or down is the number it was built from: [ver_to] for an
    up descriptor and [ver_from] for a down descriptor; and [ver] is the key
    of the sort in the directory scan and of every [bisect] and sort in the
    selection of [up] and [down]. *)
Theorem ver_is_captured_number (ty : string) (n : Z) (d : option string)
    (f : File) (m : Migration) (Hinit : Migration_init ty n d f = Ok m) :
  ver m = n /\
  (ty = "up" /\ type m = Up /\ ver m = ver_to m \/
   ty = "down" /\ type m = Down /\ ver m = ver_from m) /\
  (forall path,
     _get_migrations_from_dir path
     = Ok [("up", sort_by ver (filter is_up (parsed path)));
           ("down", sort_by ver (filter is_down (parsed path)))]) /\
  (forall l t c,
     up_select l (Some t) c
     = skipn (bisect ver (firstn (bisect ver l t) l) c) (firstn (bisect ver l t) l)) /\
  (forall l c, up_select l None c = skipn (bisect ver l c) l) /\
  (forall l t c,
     down_select l t c = sorted ver true (slice l (bisect ver l t) (bisect ver l c))).
Proof.
  unfold Migration_init in Hinit.
  destruct (String.eqb_spec ty "up") as [-> | Hup].
  - injection Hinit as <-. repeat split; auto using _get_migrations_from_dir_spec.
  - destruct (String.eqb_spec ty "down") as [-> | Hdown]; [|discriminate].
    injection Hinit as <-. repeat split; auto using _get_migrations_from_dir_spec.
Qed.

Lemma ver_is_captured_number_witness :
  ver (up_migration 4 "index" (sql_file "V4__index.sql" "")) = 4.
Proof.
  exact (proj1 (ver_is_captured_number "up" 4 (Some "index")
                  (sql_file "V4__index.sql" "") _ eq_refl)).
Defined.

(** ** The file-name grammar *)

(** C7.  The dot before [sql] in MIGR_MATCH is not escaped, so it stands for
    any character: the entry [V1xsql], which the grammar with a literal dot
    rejects, is parsed into the up descriptor of version 1. *)
Theorem unescaped_dot_accepts_other_names :
  fullmatch SPEC_GRAMMAR "V1xsql" = None /\
  parse_file (sql_file "V1xsql" "")
  = Ok (Some ("up", {| type := Up; ver_from := 0; ver_to := 1; desc := None;
                       file := sql_file "V1xsql" "" |})) /\
  parsed [sql_file "V1xsql" ""]
  = [{| type := Up; ver_from := 0; ver_to := 1; desc := None;
        file := sql_file "V1xsql" "" |}].
Proof. repeat split; reflexivity. Qed.

(** On names both grammars accept, they capture the same groups. *)
Example grammars_agree_on_sql_extension :
  fullmatch SPEC_GRAMMAR "V2__add_col.sql" = fullmatch MIGR_MATCH "V2__add_col.sql".
Proof. reflexivity. Qed.

(** ** The migration set *)

(** C8.  Whatever the directory holds, the scan returns the parsed
    descriptors split into the up sequence and the down sequence, the first
    ascending in [ver_to] and the second ascending in [ver_from]. *)
Theorem migration_set_partitioned_and_sorted (path : list File) :
  exists ups downs,
    _get_migrations_from_dir path = Ok [("up", ups); ("down", downs)] /\
    Permutation ups (filter is_up (parsed path)) /\
    Permutation downs (filter is_down (parsed path)) /\
    Permutation (ups ++ downs) (parsed path) /\
    Forall (fun m => type m = Up) ups /\
    Forall (fun m => type m = Down) downs /\
    ascending ver_to ups /\
    ascending ver_from downs.
Proof.
  exists (sort_by ver (filter is_up (parsed path))),
         (sort_by ver (filter is_down (parsed path))).
  assert (Hup : Forall (fun m => type m = Up)
                  (sort_by ver (filter is_up (parsed path)))).
  { eapply Permutation_Forall; [symmetry; apply sort_by_perm|].
    apply Forall_forall. intros m Hm. apply filter_In in Hm.
    unfold is_up in Hm. destruct (type m); [reflexivity | destruct Hm; discriminate]. }
  assert (Hdown : Forall (fun m => type m = Down)
                    (sort_by ver (filter is_down (parsed path)))).
  { eapply Permutation_Forall; [symmetry; apply sort_by_perm|].
    apply Forall_forall. intros m Hm. apply filter_In in Hm.
    unfold is_down in Hm. destruct (type m); [destruct Hm; discriminate | reflexivity]. }
  split; [apply _get_migrations_from_dir_spec|].
  split; [apply sort_by_perm|].
  split; [apply sort_by_perm|].
  split.
  { rewrite !sort_by_perm. clear. induction (parsed path) as [|m l IH]; simpl.
    - constructor.
    - unfold is_up, is_down at 1. destruct (type m); simpl.
      + now constructor.
      + rewrite <- Permutation_middle. now constructor. }
  split; [exact Hup|]. split; [exact Hdown|].
  split.
  - apply (ascending_ext ver); [|apply sort_by_ascending].
    eapply Forall_impl; [|apply ver_up, Hup]. intros; simpl in *; congruence.
  - apply (ascending_ext ver); [|apply sort_by_ascending].
    eapply Forall_impl; [|apply ver_down, Hdown]. intros; simpl in *; congruence.
Qed.

Example example_dir_scanned :
  _get_migrations_from_dir example_dir
  = Ok [("up", [ up_migration 1 "init" (sql_file "V1__init.sql" "CREATE TABLE a (x INT)");
                 up_migration 2 "add_col" (sql_file "V2__add_col.sql" "ALTER TABLE a ADD b INT");
                 up_migration 3 "fill"
                   (sql_file "V3__fill.sql"
                      "INSERT INTO a VALUES (1, 2);INSERT INTO a VALUES (3, 4)");
                 up_migration 4 "index" (sql_file "V4__index.sql" "CREATE INDEX i ON a (x)") ]);
        ("down", [ down_migration 1 "init" (sql_file "U1__init.sql" "DROP TABLE a");
                   down_migration 2 "add_col" (sql_file "U2__add_col.sql" "ALTER TABLE a DROP b");
                   down_migration 3 "fill" (sql_file "U3__fill.sql" "DELETE FROM a") ])].
Proof. reflexivity. Qed.

(** ** Range selection *)

Section Selection.
Context {DB : Database}.

(** C2.  The up sequence that [up] gets from the scan ascends in [ver_to].
    With [c] the current version and the target [t] (the one given, else
    the highest version available), [up] runs the queue of exactly the
    descriptors with [c < ver_to <= t], in ascending order of [ver_to]:
    it lists them in that order.  It does not apply them: when every
    queued descriptor has a description and the statements of the first
    one run, [up] prints its "Applying" line, runs its statements and is
    stopped by the driver, which refuses the path that line 295 passes as
    the [migration] parameter of the INSERT.  No row is recorded, nothing
    is committed, and no later migration of the queue is started. *)
Theorem up_selects_range_and_stops_at_first_record (args : Namespace)
    (w : world) (r : row) (d : dict (list Migration)) (ups : list Migration)
    (Hscan : _get_migrations_from_dir (migration_dir args) = Ok d)
    (Hups : dict_get "up" d = Ok ups)
    (Hcurrent : latest (_migration (session w)) = Some r) :
  let c := r_version r in
  let t := target_or_highest (version args) ups in
  let queue := filter (fun m => (c <? ver_to m) && (ver_to m <=? t)) ups in
  let w0 := {| committed := session w; session := session w; clock := clock w;
               stdout := (stdout w
                          ++ [PrintHash (r_migration_hash r);
                              CurrentlyAt c (r_migration r) (r_date r)])%list |} in
  ascending ver_to ups /\
  ascending ver_to queue /\
  up args w = run_queue queue (r_migration_hash r) w0 /\
  forall (m : Migration) (rest : list Migration) (t1 : tables),
    queue = m :: rest ->
    Forall (fun m => desc m <> None) queue ->
    run_query (text (file m)) (user (session w)) = inl t1 ->
    up args w
    = (Raise path_refused,
       {| committed := session w;
          session := {| _migration := _migration (session w); user := t1 |};
          clock := S (clock w);
          stdout := (stdout w0 ++ [ToApply (List.length queue)]
                     ++ map Listing queue ++ [Applying m]
                     ++ warning_of (text (file m)))%list |}).
Proof.
  intros c t queue w0.
  rewrite _get_migrations_from_dir_spec in Hscan. injection Hscan as <-.
  cbn in Hups. injection Hups as <-.
  set (ups := sort_by ver (filter is_up (parsed (migration_dir args)))) in *.
  assert (Hver : Forall (fun m => ver m = ver_to m) ups).
  { apply Forall_forall. intros m Hm. apply scanned_up in Hm.
    unfold ver. now rewrite (proj2 Hm). }
  assert (Hasc : ascending ver ups) by apply sort_by_ascending.
  assert (Hsorted : ascending ver_to ups)
    by (apply (ascending_ext ver); assumption).
  assert (Hq : up_select ups (version args) c = queue).
  { rewrite up_select_filter by exact Hasc.
    apply filter_ext_in. intros m Hm. rewrite Forall_forall in Hver.
    now rewrite (Hver m Hm). }
  assert (Hrun : up args w = run_queue queue (r_migration_hash r) w0).
  { rewrite (up_run args w r Hcurrent). fold ups c. rewrite Hq. reflexivity. }
  split; [exact Hsorted|].
  split; [now apply ascending_filter|].
  split; [exact Hrun|].
  intros m rest t1 Hcons Hdesc Hfirst. rewrite Hrun.
  pose proof (run_queue_stops m rest (r_migration_hash r) w0) as Hstop.
  rewrite Hcons in *. specialize (Hstop Hdesc).
  cbn [w0 session user] in Hstop. rewrite Hfirst in Hstop.
  exact Hstop.
Qed.

(** C3.  The down sequence that [down] gets from the scan ascends in
    [ver_from].  With [c] the current version and [t] the target, [down]
    runs the queue of exactly the descriptors with [t < ver_from <= c], in
    descending order of [ver_from]: it lists them in that order.  It does
    not apply them: when every queued descriptor has a description and the
    statements of the first one (the highest version) run, [down] is
    stopped at line 295 as [up] is, with no row recorded, nothing
    committed and no later migration started. *)
Theorem down_selects_range_and_stops_at_first_record (args : Namespace)
    (w : world) (r : row) (d : dict (list Migration)) (downs : list Migration)
    (t : Z)
    (Hscan : _get_migrations_from_dir (migration_dir args) = Ok d)
    (Hdowns : dict_get "down" d = Ok downs)
    (Htarget : version args = Some t)
    (Hcurrent : latest (_migration (session w)) = Some r) :
  let c := r_version r in
  let queue := down_select downs t c in
  let w0 := {| committed := session w; session := session w; clock := clock w;
               stdout := (stdout w
                          ++ [CurrentlyAt c (r_migration r) (r_date r)])%list |} in
  ascending ver_from downs /\
  Permutation queue
    (filter (fun m => (t <? ver_from m) && (ver_from m <=? c)) downs) /\
  descending ver_from queue /\
  down args w = run_queue queue (r_migration_hash r) w0 /\
  forall (m : Migration) (rest : list Migration) (t1 : tables),
    queue = m :: rest ->
    Forall (fun m => desc m <> None) queue ->
    run_query (text (file m)) (user (session w)) = inl t1 ->
    down args w
    = (Raise path_refused,
       {| committed := session w;
          session := {| _migration := _migration (session w); user := t1 |};
          clock := S (clock w);
          stdout := (stdout w0 ++ [ToApply (List.length queue)]
                     ++ map Listing queue ++ [Applying m]
                     ++ warning_of (text (file m)))%list |}).
Proof.
  intros c queue w0.
  rewrite _get_migrations_from_dir_spec in Hscan. injection Hscan as <-.
  cbn in Hdowns. injection Hdowns as <-.
  set (downs := sort_by ver (filter is_down (parsed (migration_dir args)))) in *.
  assert (Hver : Forall (fun m => ver m = ver_from m) downs).
  { apply Forall_forall. intros m Hm. apply scanned_down in Hm.
    unfold ver. now rewrite (proj2 Hm). }
  assert (Hasc : ascending ver downs) by apply sort_by_ascending.
  assert (Hperm : Permutation queue
            (filter (fun m => (t <? ver_from m) && (ver_from m <=? c)) downs)).
  { unfold queue. rewrite down_select_perm by exact Hasc.
    erewrite filter_ext_in; [reflexivity|]. intros m Hm.
    rewrite Forall_forall in Hver. now rewrite (Hver m Hm). }
  assert (Hrun : down args w = run_queue queue (r_migration_hash r) w0).
  { rewrite (down_run args w r t Htarget Hcurrent). reflexivity. }
  split; [apply (ascending_ext ver); assumption|].
  split; [exact Hperm|].
  split.
  { apply (descending_ext ver); [|apply sorted_reverse_descending].
    apply Forall_forall. intros m Hm.
    rewrite Forall_forall in Hver. apply Hver.
    apply (Permutation_in _ Hperm) in Hm. apply filter_In in Hm. tauto. }
  split; [exact Hrun|].
  intros m rest t1 Hcons Hdesc Hfirst. rewrite Hrun.
  pose proof (run_queue_stops m rest (r_migration_hash r) w0) as Hstop.
  rewrite Hcons in *. specialize (Hstop Hdesc).
  cbn [w0 session user] in Hstop. rewrite Hfirst in Hstop.
  exact Hstop.
Qed.
End Selection.

(** current = 1, versions 1 to 4 available, target = 3: versions 2 and 3
    are listed, version 2 is started and the run ends there. *)
Lemma up_selects_range_and_stops_at_first_record_witness :
  up {| migration_dir := example_dir; version := Some 3 |} (world_at 1)
  = (Raise path_refused,
     {| committed := session (world_at 1);
        session := @Build_store log_db (_migration (session (world_at 1)))
                     ["ALTER TABLE a ADD b INT"];
        clock := 3;
        stdout :=
          [ PrintHash "a9993e364706816aba3e25717850c26c9cd0d89d";
            CurrentlyAt 1 "V" 1;
            ToApply 2;
            Listing (up_migration 2 "add_col"
                       (sql_file "V2__add_col.sql" "ALTER TABLE a ADD b INT"));
            Listing (up_migration 3 "fill"
                       (sql_file "V3__fill.sql"
                          "INSERT INTO a VALUES (1, 2);INSERT INTO a VALUES (3, 4)"));
            Applying (up_migration 2 "add_col"
                        (sql_file "V2__add_col.sql" "ALTER TABLE a ADD b INT")) ] |}).
Proof.
  destruct (@up_selects_range_and_stops_at_first_record log_db
              {| migration_dir := example_dir; version := Some 3 |} (world_at 1)
              {| r_date := 1; r_version := 1; r_migration := "V";
                 r_migration_hash := "a9993e364706816aba3e25717850c26c9cd0d89d";
                 r_schema_hash := None |}
              [("up", example_ups); ("down", example_downs)]
              example_ups eq_refl eq_refl eq_refl)
    as (_ & _ & _ & Hstop).
  apply (Hstop
           (up_migration 2 "add_col"
              (sql_file "V2__add_col.sql" "ALTER TABLE a ADD b INT"))
           [up_migration 3 "fill"
              (sql_file "V3__fill.sql"
                 "INSERT INTO a VALUES (1, 2);INSERT INTO a VALUES (3, 4)")]
           ["ALTER TABLE a ADD b INT"]).
  - reflexivity.
  - vm_compute. repeat constructor; discriminate.
  - reflexivity.
Defined.

Example up_selects_2_3 : map ver_to (up_select example_ups (Some 3) 1) = [2; 3].
Proof. reflexivity. Qed.

Example up_default_target : map ver_to (up_select example_ups None 1) = [2; 3; 4].
Proof. reflexivity. Qed.

(** current = 3, versions 1 to 3 available, target = 1: versions 3 and 2
    are listed, version 3 is started and the run ends there. *)
Lemma down_selects_range_and_stops_at_first_record_witness :
  down {| migration_dir := example_dir; version := Some 1 |} (world_at 3)
  = (Raise path_refused,
     {| committed := session (world_at 3);
        session := @Build_store log_db (_migration (session (world_at 3)))
                     ["DELETE FROM a"];
        clock := 3;
        stdout :=
          [ CurrentlyAt 3 "V" 1;
            ToApply 2;
            Listing (down_migration 3 "fill" (sql_file "U3__fill.sql" "DELETE FROM a"));
            Listing (down_migration 2 "add_col"
                       (sql_file "U2__add_col.sql" "ALTER TABLE a DROP b"));
            Applying (down_migration 3 "fill"
                        (sql_file "U3__fill.sql" "DELETE FROM a")) ] |}).
Proof.
  destruct (@down_selects_range_and_stops_at_first_record log_db
              {| migration_dir := example_dir; version := Some 1 |} (world_at 3)
              {| r_date := 1; r_version := 3; r_migration := "V";
                 r_migration_hash := "a9993e364706816aba3e25717850c26c9cd0d89d";
                 r_schema_hash := None |}
              [("up", example_ups); ("down", example_downs)]
              example_downs 1 eq_refl eq_refl eq_refl eq_refl)
    as (_ & _ & _ & _ & Hstop).
  apply (Hstop
           (down_migration 3 "fill" (sql_file "U3__fill.sql" "DELETE FROM a"))
           [down_migration 2 "add_col"
              (sql_file "U2__add_col.sql" "ALTER TABLE a DROP b")]
           ["DELETE FROM a"]).
  - reflexivity.
  - vm_compute. repeat constructor; discriminate.
  - reflexivity.
Defined.

Example down_selects_3_2 : map ver_from (down_select example_downs 1 3) = [3; 2].
Proof. reflexivity. Qed.

(** ** The hash chain *)

Example sha1_abc :
  SHA1.hexdigest (encode "abc") = "a9993e364706816aba3e25717850c26c9cd0d89d".
Proof. vm_compute. reflexivity. Qed.

Example sha1_empty :
  SHA1.hexdigest [] = "da39a3ee5e6b4b0d3255bfef95601890afd80709".
Proof. vm_compute. reflexivity. Qed.

Example sha1_two_blocks :
  SHA1.hexdigest (encode "abcdbcdecdefdefgefghfghighijhijkijkljklmklmnlmnomnopnopq")
  = "84983e441c3bd26ebaae4aa1f95129e5e54670f1".
Proof. vm_compute. reflexivity. Qed.







Section HashChain.
Context {DB : Database}.

#[local] Opaque SHA1.digest.

End HashChain.

(** The first migration of [failing_dir] on a database at version 0: its
    statement runs, and the record of line 295 is refused. *)
Example apply_migration_is_refused :
  _apply_migration
    (up_migration 1 "init" (sql_file "V1__init.sql" "CREATE TABLE a (x INT)"))
    "a9993e364706816aba3e25717850c26c9cd0d89d" (world_at 0)
  = (Raise path_refused,
     {| committed := committed (world_at 0);
        session := @Build_store log_db (_migration (session (world_at 0)))
                     ["CREATE TABLE a (x INT)"];
        clock := 3;
        stdout := [] |}).
Proof. reflexivity. Qed.

(** ** Partial failure *)

Section PartialFailure.
Context {DB : Database}.

(** C1.  A run of [up] that queues three described migrations, the
    statements of the first of which run, does not get to the second,
    whatever the second does: after the statements of the first it is
    stopped by the driver, which refuses the path that line 295 passes as
    the [migration] parameter of the INSERT.  The ledger is the ledger the
    run read, without any new entry; the effect of the first migration is
    in the open transaction only, not committed; and the only "Applying"
    line names the first migration. *)
Theorem up_halts_at_first_record (args : Namespace) (w : world) (r : row)
    (d : dict (list Migration)) (ups : list Migration)
    (m1 m2 m3 : Migration) (t1 : tables)
    (Hscan : _get_migrations_from_dir (migration_dir args) = Ok d)
    (Hups : dict_get "up" d = Ok ups)
    (Hcurrent : latest (_migration (session w)) = Some r)
    (Hqueue : up_select ups (version args) (r_version r) = [m1; m2; m3])
    (Hdescribed : Forall (fun m => desc m <> None) [m1; m2; m3])
    (Hfirst : run_query (text (file m1)) (user (session w)) = inl t1) :
  exists w',
    up args w = (Raise path_refused, w') /\
    committed w' = session w /\
    _migration (session w') = _migration (session w) /\
    user (session w') = t1 /\
    applied (stdout w') = (applied (stdout w) ++ [m1])%list /\
    exists out,
      stdout w' = (out ++ [Applying m1] ++ warning_of (text (file m1)))%list.
Proof.
  rewrite _get_migrations_from_dir_spec in Hscan. injection Hscan as <-.
  cbn in Hups. injection Hups as <-.
  rewrite (up_run args w r Hcurrent), Hqueue.
  match goal with |- context [run_queue _ ?h ?w0] =>
    pose proof (run_queue_stops m1 [m2; m3] h w0 Hdescribed) as Hstop
  end.
  cbn [session user] in Hstop. rewrite Hfirst in Hstop. rewrite Hstop.
  eexists. split; [reflexivity|]. cbn [committed session _migration user stdout].
  split; [reflexivity|]. split; [reflexivity|]. split; [reflexivity|].
  split.
  - rewrite !applied_app, applied_listing. unfold warning_of.
    destruct (cursor_execute_multi (text (file m1))); simpl;
      now rewrite ?app_nil_r.
  - exists ((stdout w ++ [PrintHash (r_migration_hash r)]
             ++ [CurrentlyAt (r_version r) (r_migration r) (r_date r)])
            ++ [ToApply (List.length [m1; m2; m3])]
            ++ map Listing [m1; m2; m3])%list.
    now rewrite <- !app_assoc.
Qed.
End PartialFailure.

(** The three migrations of [failing_dir], the second with a statement the
    server refuses, on a database at version 0: the run ends at the first,
    and the ledger keeps its two rows. *)
Lemma up_halts_at_first_record_witness :
  exists w',
    up {| migration_dir := failing_dir; version := None |} (world_at 0)
    = (Raise path_refused, w') /\
    map r_migration (_migration (committed w')) = ["__baseline__"; "V"] /\
    user (committed w') = [] /\
    applied (stdout w')
    = [up_migration 1 "init" (sql_file "V1__init.sql" "CREATE TABLE a (x INT)")].
Proof.
  destruct (@up_halts_at_first_record log_db
              {| migration_dir := failing_dir; version := None |} (world_at 0)
              {| r_date := 1; r_version := 0; r_migration := "V";
                 r_migration_hash := "a9993e364706816aba3e25717850c26c9cd0d89d";
                 r_schema_hash := None |}
              [("up", sort_by ver (filter is_up (parsed failing_dir)));
               ("down", sort_by ver (filter is_down (parsed failing_dir)))]
              (sort_by ver (filter is_up (parsed failing_dir)))
              (up_migration 1 "init" (sql_file "V1__init.sql" "CREATE TABLE a (x INT)"))
              (up_migration 2 "add_col"
                 (sql_file "V2__add_col.sql"
                    "ALTER TABLE a ADD b INT;BAD;ALTER TABLE a ADD c INT"))
              (up_migration 3 "fill"
                 (sql_file "V3__fill.sql" "INSERT INTO a VALUES (1, 2, 3)"))
              ["CREATE TABLE a (x INT)"])
    as (w' & Hrun & Hcom & _ & _ & Happ & _).
  - reflexivity.
  - reflexivity.
  - reflexivity.
  - reflexivity.
  - repeat constructor; discriminate.
  - reflexivity.
  - exists w'. split; [exact Hrun|]. rewrite Hcom, Happ.
    repeat split; reflexivity.
Defined.

(** ** Targets on the wrong side of the current version *)

Section InvalidTarget.
Context {DB : Database}.

Lemma up_select_none (ups : list Migration) (t c : Z) :
  ascending ver ups -> t <= c -> up_select ups (Some t) c = [].
Proof.
  intros Hasc Htc. rewrite up_select_filter by exact Hasc.
  apply filter_none. intros m. cbn [target_or_highest].
  destruct (Z.ltb_spec c (ver m)), (Z.leb_spec (ver m) t); simpl; auto; lia.
Qed.

Lemma down_select_none (downs : list Migration) (t c : Z) :
  ascending ver downs -> c <= t -> down_select downs t c = [].
Proof.
  intros Hasc Htc. unfold down_select. rewrite slice_bisect by exact Hasc.
  rewrite filter_none; [reflexivity|]. intros m.
  destruct (Z.ltb_spec t (ver m)), (Z.leb_spec (ver m) c); simpl; auto; lia.
Qed.

(** C5, amended.  With the current version [c] read from the ledger, [up]
    with a given target [t <= c] and [down] with a target [t >= c] queue
    nothing: no statement of any migration runs and nothing is appended
    to the ledger; the run prints the warning that there is nothing to
    apply and returns without raising. *)
Theorem invalid_target_warns_and_returns (dir : list File) (w : world)
    (r : row) (t_up t_down : Z)
    (Hcurrent : latest (_migration (session w)) = Some r)
    (Hup : t_up <= r_version r)
    (Hdown : r_version r <= t_down) :
  up {| migration_dir := dir; version := Some t_up |} w
  = (Ok tt,
     {| committed := session w; session := session w; clock := clock w;
        stdout := (stdout w
                   ++ [PrintHash (r_migration_hash r);
                       CurrentlyAt (r_version r) (r_migration r) (r_date r);
                       WarnNoMigrations])%list |}) /\
  down {| migration_dir := dir; version := Some t_down |} w
  = (Ok tt,
     {| committed := session w; session := session w; clock := clock w;
        stdout := (stdout w
                   ++ [CurrentlyAt (r_version r) (r_migration r) (r_date r);
                       WarnNoMigrations])%list |}).
Proof.
  split.
  - rewrite (up_run _ w r Hcurrent). cbn [migration_dir version].
    rewrite up_select_none by (apply sort_by_ascending || exact Hup).
    cbn [run_queue]. unfold print. cbn [committed session clock stdout].
    now rewrite <- !app_assoc.
  - rewrite (down_run {| migration_dir := dir; version := Some t_down |}
               w r t_down eq_refl Hcurrent).
    cbn [migration_dir].
    rewrite down_select_none by (apply sort_by_ascending || exact Hdown).
    cbn [run_queue]. unfold print. cbn [committed session clock stdout].
    now rewrite <- !app_assoc.
Qed.
End InvalidTarget.

Lemma invalid_target_warns_and_returns_witness :
  fst (up {| migration_dir := example_dir; version := Some 1 |} (world_at 1)) = Ok tt /\
  fst (down {| migration_dir := example_dir; version := Some 3 |} (world_at 1)) = Ok tt.
Proof.
  destruct (@invalid_target_warns_and_returns log_db example_dir (world_at 1)
              {| r_date := 1; r_version := 1; r_migration := "V";
                 r_migration_hash := "a9993e364706816aba3e25717850c26c9cd0d89d";
                 r_schema_hash := None |}
              1 3 eq_refl ltac:(simpl; lia) ltac:(simpl; lia)) as [Hu Hd].
  rewrite Hu, Hd. split; reflexivity.
Defined.

(** C5, as stated, fails: [up] with the target 1 on a database at version 1
    raises nothing, and neither does [down] with the target 3 on a database
    at version 3; both return after the warning. *)
Lemma target_equal_to_current_raises_nothing :
  (forall e,
     fst (up {| migration_dir := example_dir; version := Some 1 |} (world_at 1))
     <> Raise e) /\
  (forall e,
     fst (down {| migration_dir := example_dir; version := Some 3 |} (world_at 3))
     <> Raise e) /\
  stdout (snd (up {| migration_dir := example_dir; version := Some 1 |} (world_at 1)))
  = [PrintHash "a9993e364706816aba3e25717850c26c9cd0d89d"; CurrentlyAt 1 "V" 1;
     WarnNoMigrations] /\
  stdout (snd (down {| migration_dir := example_dir; version := Some 3 |} (world_at 3)))
  = [CurrentlyAt 3 "V" 1; WarnNoMigrations].
Proof.
  repeat split; try (intros e; vm_compute; discriminate); vm_compute; reflexivity.
Qed.

(** ** list *)

Section ReadOnly.
Context {DB : Database}.

Lemma read_only_ret {A} (a : A) : read_only (ret a).
Proof. intros w. split; reflexivity. Qed.

Lemma read_only_lift {A} (r : result A) : read_only (lift r).
Proof. intros w. split; reflexivity. Qed.

Lemma read_only_print (l : line) : read_only (print l).
Proof. intros w. split; reflexivity. Qed.

Lemma read_only_bind {A B} (m : M A) (f : A -> M B) :
  read_only m -> (forall a, read_only (f a)) -> read_only (bind m f).
Proof.
  intros Hm Hf w. unfold bind. specialize (Hm w).
  destruct (m w) as [[a|e] w1]; simpl in Hm.
  - destruct (Hf a w1) as [Hc Hs]. rewrite Hc, Hs. exact Hm.
  - exact Hm.
Qed.

Lemma read_only_print_listing (ms : list Migration) : read_only (print_listing ms).
Proof.
  induction ms as [|m ms IH]; cbn [print_listing].
  - apply read_only_ret.
  - apply read_only_bind; [apply read_only_lift|]. intros shown.
    apply read_only_bind; [apply read_only_print|]. intros _. exact IH.
Qed.

Lemma read_only_print_items (items : dict (list Migration)) :
  read_only (print_items items).
Proof.
  induction items as [|[migr_type migr_list] items IH]; cbn [print_items].
  - apply read_only_ret.
  - apply read_only_bind; [apply read_only_print|]. intros _.
    apply read_only_bind; [apply read_only_print_listing|]. intros _. exact IH.
Qed.

(** C9.  [list] leaves the ledger and the user's tables, committed and
    in the session, as they were, whatever it prints or raises; so does
    any number of invocations in a row. *)
Theorem list_never_writes (args : Namespace) :
  read_only (list_migrations args) /\
  forall (n : nat) (w : world),
    committed (list_repeatedly n args w) = committed w /\
    session (list_repeatedly n args w) = session w.
Proof.
  assert (Hone : read_only (list_migrations args)).
  { unfold list_migrations. apply read_only_bind; [apply read_only_lift|].
    intros migrations. apply read_only_print_items. }
  split; [exact Hone|].
  induction n as [|n IH]; intros w; cbn [list_repeatedly].
  - split; reflexivity.
  - destruct (IH (snd (list_migrations args w))) as [Hc Hs].
    destruct (Hone w) as [Hc1 Hs1]. rewrite Hc, Hs. split; assumption.
Qed.
End ReadOnly.

Example list_prints_both_sequences :
  map (fun l => match l with Header t => t | _ => EmptyString end)
    (stdout (snd (list_migrations {| migration_dir := example_dir; version := None |}
                    (world_at 2))))
  = ["up"; ""; ""; ""; ""; "down"; ""; ""; ""].
Proof. vm_compute. reflexivity. Qed.

(** A file without a description is a descriptor like any other, and the
    listing of it raises. *)
Example listing_without_description_raises :
  fst (list_migrations {| migration_dir := [sql_file "V1.sql" "CREATE TABLE a (x INT)"];
                          version := None |} (world_at 0))
  = Raise (TypeError "unsupported format string passed to NoneType.__format__").
Proof. vm_compute. reflexivity. Qed.

(* ===================================================================== *)
(** * Further properties of the code *)
(* ===================================================================== *)

(** ** Names the grammar accepts *)

Lemma string_length_app (a b : string) :
  String.length (a ++ b) = (String.length a + String.length b)%nat.
Proof. induction a as [|c a IH]; simpl; [reflexivity | now rewrite IH]. Qed.

(** A repetition that cannot go further and whose continuation accepts
    takes everything it can. *)
Lemma plus_match_greedy (a : atom) (p : string) :
  forall rest pos caps k r,
    p <> EmptyString ->
    all_chars (atom_ok a) p = true ->
    stops a rest = true ->
    k (pos + String.length p)%nat rest caps = Some r ->
    plus_match a pos (p ++ rest) caps k = Some r.
Proof.
  induction p as [|c p IH]; intros rest pos caps k r Hne Hall Hstop Hk;
    [congruence|].
  simpl in Hall. apply andb_true_iff in Hall. destruct Hall as [Hc Hp].
  cbn [String.append plus_match]. rewrite Hc.
  destruct p as [|c' p'].
  - cbn [String.append].
    assert (Hnone : plus_match a (S pos) rest caps k = None).
    { destruct rest as [|c0 rest0]; [reflexivity|].
      simpl in Hstop. simpl. apply negb_true_iff in Hstop. now rewrite Hstop. }
    rewrite Hnone. simpl in Hk. now replace (S pos) with (pos + 1)%nat by lia.
  - rewrite (IH rest (S pos) caps k r); [reflexivity | discriminate | exact Hp
                                        | exact Hstop |].
    rewrite <- Hk. f_equal. simpl. lia.
Qed.

(** A repetition whose continuation refuses every split tried gives up. *)
Lemma plus_match_none (a : atom) (s : string) :
  forall pos caps k,
    (forall p q, s = p ++ q -> p <> EmptyString ->
                 k (pos + String.length p)%nat q caps = None) ->
    plus_match a pos s caps k = None.
Proof.
  induction s as [|c s IH]; intros pos caps k Hk; [reflexivity|].
  cbn [plus_match]. destruct (atom_ok a c); [|reflexivity].
  rewrite IH.
  - specialize (Hk (String c EmptyString) s eq_refl).
    simpl in Hk. replace (pos + 1)%nat with (S pos) in Hk by lia.
    apply Hk. discriminate.
  - intros p q -> Hne. specialize (Hk (String c p) q eq_refl).
    simpl in Hk. replace (pos + S (String.length p))%nat
      with (S pos + String.length p)%nat in Hk by lia.
    apply Hk. discriminate.
Qed.

(** A repetition backtracks to the longest split its continuation
    accepts. *)
Lemma plus_match_backtracks (a : atom) (p : string) :
  forall q pos caps k r,
    p <> EmptyString ->
    all_chars (atom_ok a) p = true ->
    k (pos + String.length p)%nat q caps = Some r ->
    (forall q1 q2, q = q1 ++ q2 -> q1 <> EmptyString ->
                   k (pos + String.length (p ++ q1))%nat q2 caps = None) ->
    plus_match a pos (p ++ q) caps k = Some r.
Proof.
  induction p as [|c p IH]; intros q pos caps k r Hne Hall Hk Hlonger;
    [congruence|].
  simpl in Hall. apply andb_true_iff in Hall. destruct Hall as [Hc Hp].
  cbn [String.append plus_match]. rewrite Hc.
  destruct p as [|c' p'].
  - cbn [String.append].
    rewrite plus_match_none.
    + simpl in Hk. now replace (S pos) with (pos + 1)%nat by lia.
    + intros q1 q2 -> Hq1. specialize (Hlonger q1 q2 eq_refl Hq1).
      simpl in Hlonger. rewrite <- Hlonger. f_equal. lia.
  - rewrite (IH q (S pos) caps k r); [reflexivity | discriminate | exact Hp | |].
    + rewrite <- Hk. f_equal. simpl. lia.
    + intros q1 q2 Hq Hq1. rewrite <- (Hlonger q1 q2 Hq Hq1). f_equal. simpl. lia.
Qed.

(** The extension part accepts exactly one character, not a newline,
    followed by [sql] and the end. *)
Lemma extension_exact pos s caps r :
  rmatch (Atom Any ;; Lit "sql" ;; Eol)%regex pos s caps at_subject_end = Some r ->
  exists c, s = String c "sql".
Proof.
  cbn [rmatch]. destruct s as [|c s']; [discriminate|].
  destruct (atom_ok Any c); [|discriminate].
  destruct s' as [|c1 [|c2 [|c3 s4]]]; cbn [strip_prefix];
    repeat match goal with
           | |- context [Ascii.eqb ?x ?y] => destruct (Ascii.eqb_spec x y)
           end; try discriminate.
  subst. destruct s4 as [|c4 s5]; [intros _; now exists c|].
  cbn [at_end]. destruct s5; [destruct (Ascii.eqb c4 newline)|]; discriminate.
Qed.

Lemma marker_ok (marker : ascii) :
  marker = "V"%char \/ marker = "U"%char -> atom_ok (OneOf "UV") marker = true.
Proof. intros [-> | ->]; reflexivity. Qed.

Lemma substring_first (c : ascii) (s : string) :
  substring 0 (1 - 0) (String c s) = String c EmptyString.
Proof. simpl. destruct s; reflexivity. Qed.

Lemma plain_name_matches (marker : ascii) (digits : string) :
  marker = "V"%char \/ marker = "U"%char ->
  digits <> EmptyString ->
  all_chars is_digit digits = true ->
  fullmatch MIGR_MATCH (plain_name marker digits)
  = Some [("num", digits); ("type", String marker EmptyString)].
Proof.
  intros Hm Hne Hall. unfold fullmatch, MIGR_MATCH, plain_name.
  cbn [rmatch Nat.eqb]. rewrite (marker_ok marker Hm).
  apply plus_match_greedy; [exact Hne | exact Hall | reflexivity |].
  cbn [set_group]. rewrite substring_first.
  replace (1 + String.length digits - 1)%nat with (String.length digits) by lia.
  rewrite substring_prefix. reflexivity.
Qed.

Lemma described_name_matches (marker : ascii) (digits description : string) :
  marker = "V"%char \/ marker = "U"%char ->
  digits <> EmptyString ->
  all_chars is_digit digits = true ->
  description <> EmptyString ->
  all_chars (atom_ok Any) description = true ->
  fullmatch MIGR_MATCH (described_name marker digits description)
  = Some [("desc", description); ("num", digits);
          ("type", String marker EmptyString)].
Proof.
  intros Hm Hne Hall Hdne Hdall. unfold fullmatch, MIGR_MATCH, described_name.
  cbn [rmatch Nat.eqb]. rewrite (marker_ok marker Hm).
  apply plus_match_greedy; [exact Hne | exact Hall | reflexivity |].
  cbn [set_group]. rewrite substring_first.
  replace (1 + String.length digits - 1)%nat with (String.length digits) by lia.
  rewrite substring_prefix.
  cbn [String.append strip_prefix Ascii.eqb Bool.eqb].
  rewrite (plus_match_backtracks Any description ".sql" _ _ _
             [("desc", description); ("num", digits);
              ("type", String marker EmptyString)]);
    [reflexivity | exact Hdne | exact Hdall | |].
  - match goal with
    | |- context [substring 0 ?n (description ++ ".sql")] =>
        replace n with (String.length description) by lia
    end.
    rewrite substring_prefix. reflexivity.
  - intros q1 q2 Hq Hq1.
    match goal with |- ?lhs = None => destruct lhs as [r|] eqn:Hr end;
      [|reflexivity].
    apply extension_exact in Hr. destruct Hr as [c ->].
    apply (f_equal String.length) in Hq. rewrite string_length_app in Hq.
    simpl in Hq. destruct q1; [congruence | simpl in Hq; lia].
Qed.

Lemma digit_value_nonneg (c : ascii) : is_digit c = true -> 0 <= digit_value c <= 9.
Proof.
  unfold is_digit, digit_value. intros H. apply andb_true_iff in H.
  destruct H as [Hlo Hhi]. apply Nat.leb_le in Hlo, Hhi. lia.
Qed.

Lemma int_acc_nonneg (s : string) :
  forall acc n, 0 <= acc -> int_acc s acc = Ok n -> 0 <= n.
Proof.
  induction s as [|c s IH]; cbn [int_acc]; intros acc n Hacc H.
  - injection H as <-. exact Hacc.
  - destruct (is_digit c) eqn:Hc; [|discriminate].
    eapply IH; [|exact H]. pose proof (digit_value_nonneg c Hc). lia.
Qed.

Lemma int_nonneg (s : option string) (n : Z) : int s = Ok n -> 0 <= n.
Proof.
  destruct s as [[|c s]|]; simpl; try discriminate.
  change (int_acc (String c s) 0 = Ok n -> 0 <= n).
  apply int_acc_nonneg. lia.
Qed.

(** X1.  A name made of V or U, decimal digits and [.sql] is parsed into
    the descriptor of that direction and number, without description. *)
Theorem plain_name_parses (marker : ascii) (digits q : string)
    (Hmarker : marker = "V"%char \/ marker = "U"%char)
    (Hnonempty : digits <> EmptyString)
    (Hdigits : all_chars is_digit digits = true) :
  exists n,
    int (Some digits) = Ok n /\ 0 <= n /\
    parse_file (sql_file (plain_name marker digits) q)
    = Ok (Some (marker_type marker,
                descriptor marker n None (sql_file (plain_name marker digits) q))).
Proof.
  destruct (int_digits digits Hnonempty Hdigits) as [n Hn].
  exists n. split; [exact Hn|]. split; [exact (int_nonneg _ _ Hn)|].
  unfold parse_file. cbn [name sql_file].
  rewrite (plain_name_matches marker digits Hmarker Hnonempty Hdigits).
  unfold group. cbn [dict_find String.eqb Ascii.eqb Bool.eqb rbind].
  rewrite Hn. destruct Hmarker as [-> | ->]; reflexivity.
Qed.

Lemma plain_name_parses_witness :
  exists n,
    int (Some "007") = Ok n /\ 0 <= n /\
    parse_file (sql_file "U007.sql" "DROP TABLE a")
    = Ok (Some ("down", descriptor "U" n None (sql_file "U007.sql" "DROP TABLE a"))).
Proof.
  apply (plain_name_parses "U" "007" "DROP TABLE a").
  - right. reflexivity.
  - discriminate.
  - reflexivity.
Defined.

(** X2.  A name made of V or U, decimal digits, two underscores, a non-empty
    description free of newlines and [.sql] is parsed into the descriptor of
    that direction and number with that description, whatever the
    description holds (underscores and dots included). *)
Theorem described_name_parses (marker : ascii) (digits description q : string)
    (Hmarker : marker = "V"%char \/ marker = "U"%char)
    (Hnonempty : digits <> EmptyString)
    (Hdigits : all_chars is_digit digits = true)
    (Hdescribed : description <> EmptyString)
    (Hline : all_chars (atom_ok Any) description = true) :
  exists n,
    int (Some digits) = Ok n /\ 0 <= n /\
    parse_file (sql_file (described_name marker digits description) q)
    = Ok (Some (marker_type marker,
                descriptor marker n (Some description)
                  (sql_file (described_name marker digits description) q))).
Proof.
  destruct (int_digits digits Hnonempty Hdigits) as [n Hn].
  exists n. split; [exact Hn|]. split; [exact (int_nonneg _ _ Hn)|].
  unfold parse_file. cbn [name sql_file].
  rewrite (described_name_matches marker digits description
             Hmarker Hnonempty Hdigits Hdescribed Hline).
  unfold group. cbn [dict_find String.eqb Ascii.eqb Bool.eqb rbind].
  rewrite Hn. destruct Hmarker as [-> | ->]; reflexivity.
Qed.

Lemma described_name_parses_witness :
  exists n,
    int (Some "12") = Ok n /\ 0 <= n /\
    parse_file (sql_file "V12__add__col.v2.sql" "ALTER TABLE a ADD b INT")
    = Ok (Some ("up", descriptor "V" n (Some "add__col.v2")
                        (sql_file "V12__add__col.v2.sql" "ALTER TABLE a ADD b INT"))).
Proof.
  apply (described_name_parses "V" "12" "add__col.v2" "ALTER TABLE a ADD b INT").
  - left. reflexivity.
  - discriminate.
  - reflexivity.
  - discriminate.
  - reflexivity.
Defined.

(** ** Versions *)

Lemma parse_file_nonneg (f : File) (ty : string) (m : Migration) :
  parse_file f = Ok (Some (ty, m)) ->
  0 <= ver m /\ (type m = Up /\ ver_from m = ver_to m - 1 \/
                 type m = Down /\ ver_to m = ver_from m - 1) /\ file m = f.
Proof.
  unfold parse_file. intros H.
  destruct (fullmatch MIGR_MATCH (name f)) as [caps|] eqn:Hm; [|discriminate].
  pose proof (MIGR_MATCH_inv _ _ Hm) as (c & digits & Hc & Hty & Hnum & Hne & Hall).
  destruct (int_digits digits Hne Hall) as [n Hn].
  pose proof (int_nonneg _ _ Hn) as Hn0.
  rewrite Hty, Hnum, Hn in H.
  destruct Hc as [-> | ->]; cbn in H; injection H as _ <-; unfold ver; simpl;
    repeat split; auto; lia.
Qed.

Lemma parsed_in (path : list File) (m : Migration) :
  In m (parsed path) -> exists f ty, In f path /\ parse_file f = Ok (Some (ty, m)).
Proof.
  unfold parsed. rewrite in_flat_map. intros (f & Hf & Hm).
  destruct (parse_file f) as [[[ty m']|]|] eqn:Hp; simpl in Hm; try tauto.
  destruct Hm as [<- | []]. now exists f, ty.
Qed.

(** X3.  Every descriptor the scan of a directory yields has a version that
    is not negative, differs by one between its two ends in the direction
    of its type, and keeps the directory entry it was parsed from. *)
Theorem parsed_versions_nonnegative (path : list File) :
  Forall (fun m =>
            0 <= ver m /\
            (type m = Up /\ ver_from m = ver_to m - 1 \/
             type m = Down /\ ver_to m = ver_from m - 1) /\
            In (file m) path)
    (parsed path).
Proof.
  apply Forall_forall. intros m Hm.
  destruct (parsed_in path m Hm) as (f & ty & Hf & Hp).
  destruct (parse_file_nonneg f ty m Hp) as (Hv & Hd & <-). auto.
Qed.

(** ** Listing descriptors *)

Section Listing.
Context {DB : Database}.

(** The listing of a sequence prints a line per descriptor when every
    descriptor has a description; otherwise it stops with the exception of
    __repr__ at the first one that has none. *)
Lemma print_listing_cases (ms : list Migration) :
  forall w,
    (Forall (fun m => desc m <> None) ms /\
     print_listing ms w
     = (Ok tt, {| committed := committed w; session := session w;
                  clock := clock w;
                  stdout := (stdout w ++ map Listing ms)%list |})) \/
    (Exists (fun m => desc m = None) ms /\
     exists w',
       print_listing ms w = (Raise repr_error, w') /\
       committed w' = committed w /\ session w' = session w /\
       clock w' = clock w /\
       applied (stdout w') = applied (stdout w)).
Proof.
  induction ms as [|m ms IH]; intros w.
  - left. split; [constructor|]. simpl. unfold ret. rewrite app_nil_r.
    now destruct w.
  - rewrite print_listing_cons. unfold Migration_repr.
    destruct (desc m) as [d|] eqn:Hd.
    + cbn [print snd].
      match goal with |- context [print_listing ms ?w1] =>
        destruct (IH w1) as [[Hall ->] | (Hex & w' & -> & Hc & Hs & Hk & Ho)]
      end.
      * left. split; [constructor; [congruence | exact Hall]|].
        cbn [committed session clock stdout map]. now rewrite <- app_assoc.
      * right. split; [now apply Exists_cons_tl|].
        exists w'. cbn [committed session clock stdout] in *.
        rewrite applied_app in Ho. simpl in Ho. rewrite app_nil_r in Ho.
        auto 10.
    + right. split; [now apply Exists_cons_hd|].
      exists w. repeat split; reflexivity.
Qed.

Lemma described_or_not (ms : list Migration) :
  Forall (fun m => desc m <> None) ms \/ Exists (fun m => desc m = None) ms.
Proof.
  induction ms as [|m ms [IH | IH]].
  - left. constructor.
  - destruct (desc m) eqn:Hd.
    + left. constructor; [congruence | exact IH].
    + right. now apply Exists_cons_hd.
  - right. now apply Exists_cons_tl.
Qed.

Lemma described_not_both (ms : list Migration) :
  Forall (fun m => desc m <> None) ms -> Exists (fun m => desc m = None) ms -> False.
Proof.
  intros Hall Hex. apply Exists_exists in Hex. destruct Hex as (m & Hm & Hd).
  rewrite Forall_forall in Hall. exact (Hall m Hm Hd).
Qed.

Lemma list_migrations_run (args : Namespace) (w : world) :
  list_migrations args w
  = match print_listing (sort_by ver (filter is_up (parsed (migration_dir args))))
            (snd (print (Header "up") w)) with
    | (Ok _, w1) =>
        match print_listing
                (sort_by ver (filter is_down (parsed (migration_dir args))))
                (snd (print (Header "down") w1)) with
        | (Ok _, w2) => (Ok tt, w2)
        | (Raise e, w2) => (Raise e, w2)
        end
    | (Raise e, w1) => (Raise e, w1)
    end.
Proof.
  unfold list_migrations. rewrite _get_migrations_from_dir_spec.
  unfold bind at 1. cbn [lift print_items].
  unfold bind at 1. cbn [print snd]. unfold bind at 1.
  destruct (print_listing _ _) as [[[]|e] w1]; [|reflexivity].
  unfold bind at 1. cbn [print snd]. unfold bind at 1.
  destruct (print_listing _ _) as [[[]|e] w2]; reflexivity.
Qed.

(** X4.  [list] returns normally exactly when every descriptor found in the
    directory has a description; it then prints the up sequence and the
    down sequence, each under its header and in ascending order.  When a
    file without description is found (the grammar allows it), [list]
    raises the TypeError of __repr__. *)
Theorem list_succeeds_iff_all_described (args : Namespace) (w : world) :
  let ups := sort_by ver (filter is_up (parsed (migration_dir args))) in
  let downs := sort_by ver (filter is_down (parsed (migration_dir args))) in
  (Forall (fun m => desc m <> None) (parsed (migration_dir args)) <->
   fst (list_migrations args w) = Ok tt) /\
  (Forall (fun m => desc m <> None) (parsed (migration_dir args)) ->
   stdout (snd (list_migrations args w))
   = (stdout w ++ Header "up" :: map Listing ups
               ++ Header "down" :: map Listing downs)%list) /\
  (Exists (fun m => desc m = None) (parsed (migration_dir args)) ->
   fst (list_migrations args w) = Raise repr_error).
Proof.
  intros ups downs.
  assert (Hsplit : forall P : Migration -> Prop,
             Forall P (parsed (migration_dir args)) <->
             Forall P ups /\ Forall P downs).
  { intros P. unfold ups, downs. rewrite !Forall_forall. split.
    - intros H. split; intros m Hm;
        apply (Permutation_in _ (sort_by_perm ver _)) in Hm;
        apply filter_In in Hm; apply H, Hm.
    - intros [Hu Hd] m Hm. destruct (type m) eqn:Ht.
      + apply Hu. apply (Permutation_in _ (Permutation_sym (sort_by_perm ver _))).
        apply filter_In. unfold is_up. now rewrite Ht.
      + apply Hd. apply (Permutation_in _ (Permutation_sym (sort_by_perm ver _))).
        apply filter_In. unfold is_down. now rewrite Ht. }
  assert (Hrun : (Forall (fun m => desc m <> None) ups /\
                  Forall (fun m => desc m <> None) downs /\
                  list_migrations args w
                  = (Ok tt,
                     {| committed := committed w; session := session w;
                        clock := clock w;
                        stdout := (stdout w ++ Header "up" :: map Listing ups
                                   ++ Header "down" :: map Listing downs)%list |})) \/
                 ((Exists (fun m => desc m = None) ups \/
                   Exists (fun m => desc m = None) downs) /\
                  fst (list_migrations args w) = Raise repr_error)).
  { rewrite list_migrations_run. fold ups downs. cbn [print snd].
    match goal with |- context [print_listing ups ?w1] =>
      destruct (print_listing_cases ups w1)
        as [[Hu ->] | (Hu & w' & -> & _)]
    end; [|right; split; [now left | reflexivity]].
    cbn [print snd].
    match goal with |- context [print_listing downs ?w1] =>
      destruct (print_listing_cases downs w1)
        as [[Hd ->] | (Hd & w' & -> & _)]
    end; [|right; split; [now right | reflexivity]].
    left. split; [exact Hu|]. split; [exact Hd|].
    cbn [committed session clock stdout]. f_equal. f_equal.
    rewrite <- !app_assoc. reflexivity. }
  split; [|split].
  - rewrite Hsplit. split.
    + intros [Hu Hd]. destruct Hrun as [(_ & _ & ->) | [[Hx | Hx] _]];
        [reflexivity | |];
      first [exact (False_ind _ (described_not_both _ Hu Hx))
              | exact (False_ind _ (described_not_both _ Hd Hx))].
    + intros Hok. destruct Hrun as [(Hu & Hd & _) | [_ Hr]]; [now split|].
      rewrite Hr in Hok. discriminate.
  - intros Hall. apply Hsplit in Hall. destruct Hall as [Hu Hd].
    destruct Hrun as [(_ & _ & ->) | [[Hx | Hx] _]];
      [reflexivity | |];
      first [exact (False_ind _ (described_not_both _ Hu Hx))
              | exact (False_ind _ (described_not_both _ Hd Hx))].
  - intros Hex. destruct Hrun as [(Hu & Hd & _) | [_ Hr]]; [|exact Hr].
    exfalso. apply (described_not_both (parsed (migration_dir args))); [|exact Hex].
    apply Hsplit. now split.
Qed.
End Listing.

(** ** Whole runs of up and down *)

Section Runs.
Context {DB : Database}.


End Runs.

(** ** Runs that stop before they apply anything *)

Section EarlyStops.
Context {DB : Database}.

(** X7.  When a migration that [up] queues has no description, the listing
    of the queue raises the TypeError of __repr__: no statement of any
    migration runs, no Applying line is printed and the database is left as
    the run found it. *)
Theorem up_raises_on_undescribed_queue (args : Namespace) (w : world) (r : row)
    (Hcurrent : latest (_migration (session w)) = Some r)
    (Hundescribed :
       Exists (fun m => desc m = None)
         (up_select (sort_by ver (filter is_up (parsed (migration_dir args))))
            (version args) (r_version r))) :
  exists w',
    up args w = (Raise repr_error, w') /\
    committed w' = session w /\ session w' = session w /\
    applied (stdout w') = applied (stdout w).
Proof.
  rewrite (up_run args w r Hcurrent).
  destruct (up_select _ _ _) as [|m ms] eqn:Hq; [inversion Hundescribed|].
  rewrite run_queue_cons. cbn [print snd].
  match goal with |- context [print_listing ?q ?w1] =>
    destruct (print_listing_cases q w1)
      as [[Hall _] | (_ & w' & -> & Hc & Hs & _ & Hout)]
  end; [exfalso; exact (described_not_both _ Hall Hundescribed)|].
  exists w'. cbn [committed session stdout] in *.
  split; [reflexivity|]. split; [exact Hc|]. split; [exact Hs|].
  rewrite Hout, !applied_app. cbn [applied]. now rewrite !app_nil_r.
Qed.

(** X8.  On a ledger without rows, [up] and [down] raise StopIteration where
    they read the current version, before they print, commit or run
    anything: the world is unchanged. *)
Theorem empty_ledger_stops_iteration (dir : list File) (v : option Z)
    (target : Z) (w : world)
    (Hempty : _migration (session w) = []) :
  up {| migration_dir := dir; version := v |} w = (Raise StopIteration, w) /\
  down {| migration_dir := dir; version := Some target |} w = (Raise StopIteration, w).
Proof.
  unfold up, down. cbn [migration_dir version].
  rewrite _get_migrations_from_dir_spec.
  cbn [rbind dict_get dict_find String.eqb Ascii.eqb Bool.eqb].
  split.
  - unfold bind at 1. cbn [lift]. unfold bind at 1. unfold select_latest.
    rewrite Hempty. reflexivity.
  - unfold bind at 1. cbn [lift]. unfold bind at 1. cbn [ret].
    unfold bind at 1. unfold select_latest. rewrite Hempty. reflexivity.
Qed.
End EarlyStops.

(** ** The ledger under up and down *)

Section AppendOnly.
Context {DB : Database}.

(** X10.  Whatever a run of [up] or [down] on a new connection ends with
    (return, warning, StopIteration, the TypeError of the listing, a
    statement error or the ProgrammingError of the record), it writes
    nothing to the ledger: the committed database after the run is the
    one before it, and the ledger the connection sees has the rows it had.
    The only INSERT of these commands is the one of line 295, which the
    driver refuses. *)
Theorem ledger_is_never_written (args : Namespace) (w : world)
    (Hfresh : committed w = session w) :
  committed (snd (up args w)) = committed w /\
  _migration (session (snd (up args w))) = _migration (session w) /\
  committed (snd (down args w)) = committed w /\
  _migration (session (snd (down args w))) = _migration (session w).
Proof.
  assert (Hup : committed (snd (up args w)) = committed w /\
                _migration (session (snd (up args w))) = _migration (session w)).
  { destruct (latest (_migration (session w))) as [r|] eqn:Hl.
    - rewrite (up_run args w r Hl).
      match goal with |- context [run_queue ?q ?h ?w1] =>
        destruct (run_queue_frame q h w1) as [Hc Hs]
      end.
      rewrite Hc, Hs. cbn [committed session]. now rewrite Hfresh.
    - assert (Hstop : up args w = (Raise StopIteration, w)).
      { unfold up. rewrite _get_migrations_from_dir_spec.
        cbn [rbind dict_get dict_find String.eqb Ascii.eqb Bool.eqb].
        unfold bind at 1. cbn [lift]. unfold bind at 1. unfold select_latest.
        now rewrite Hl. }
      rewrite Hstop. split; reflexivity. }
  assert (Hdown : committed (snd (down args w)) = committed w /\
                  _migration (session (snd (down args w)))
                  = _migration (session w)).
  { destruct (version args) as [t|] eqn:Hv.
    - destruct (latest (_migration (session w))) as [r|] eqn:Hl.
      + rewrite (down_run args w r t Hv Hl).
        match goal with |- context [run_queue ?q ?h ?w1] =>
          destruct (run_queue_frame q h w1) as [Hc Hs]
        end.
        rewrite Hc, Hs. cbn [committed session]. now rewrite Hfresh.
      + assert (Hstop : down args w = (Raise StopIteration, w)).
        { unfold down. rewrite _get_migrations_from_dir_spec, Hv.
          cbn [rbind dict_get dict_find String.eqb Ascii.eqb Bool.eqb].
          unfold bind at 1. cbn [lift]. unfold bind at 1. cbn [ret].
          unfold bind at 1. unfold select_latest. now rewrite Hl. }
        rewrite Hstop. split; reflexivity.
    - assert (Hstop : snd (down args w) = w).
      { unfold down. rewrite _get_migrations_from_dir_spec, Hv.
        cbn [rbind dict_get dict_find String.eqb Ascii.eqb Bool.eqb].
        unfold bind at 1. cbn [lift]. reflexivity. }
      rewrite Hstop. split; reflexivity. }
  tauto.
Qed.
End AppendOnly.

(** ** The current version *)

Section Current.
Context {DB : Database}.

Lemma latest_from (rows : list row) :
  forall acc,
    match fold_left
            (fun best r =>
               match best with
               | None => Some r
               | Some b => if (r_date b <? r_date r)%nat then Some r else Some b
               end) rows acc with
    | Some r =>
        (acc = Some r \/ In r rows) /\
        Forall (fun x => (r_date x <= r_date r)%nat) rows /\
        (forall b, acc = Some b -> (r_date b <= r_date r)%nat)
    | None => acc = None /\ rows = []
    end.
Proof.
  induction rows as [|x rows IH]; intros acc; cbn [fold_left].
  - destruct acc as [b|]; [|now split].
    split; [now left|]. split; [constructor|]. intros b' [= <-]. lia.
  - match goal with |- context [fold_left _ rows ?acc'] =>
      specialize (IH acc'); destruct (fold_left _ rows acc') as [r|]
    end.
    + destruct IH as (Hin & Hall & Hacc).
      destruct acc as [b|].
      * destruct (Nat.ltb_spec (r_date b) (r_date x)).
        -- pose proof (Hacc x eq_refl).
           split; [destruct Hin as [[= <-] | Hin]; right; simpl; auto|].
           split; [now constructor|]. intros b' [= <-]. lia.
        -- pose proof (Hacc b eq_refl).
           split; [destruct Hin as [[= <-] | Hin]; [now left | right; simpl; auto]|].
           split; [constructor; [lia | exact Hall]|]. now intros b' [= <-].
      * pose proof (Hacc x eq_refl).
        split; [destruct Hin as [[= <-] | Hin]; right; simpl; auto|].
        split; [now constructor | discriminate].
    + destruct IH as [Hnone _]. destruct acc as [b|]; [|discriminate].
      destruct (r_date b <? r_date x)%nat; discriminate.
Qed.

(** X11.  The row [up] and [down] take the current version and the previous
    hash from is a row of the ledger with the greatest date; reading raises
    StopIteration exactly when the ledger has no row, and changes
    nothing. *)
Theorem current_version_is_the_newest_row (w : world) :
  snd (select_latest w) = w /\
  match fst (select_latest w) with
  | Ok (date, curr_version, migration, migration_hash) =>
      exists r,
        In r (_migration (session w)) /\
        r_date r = date /\ r_version r = curr_version /\
        r_migration r = migration /\ r_migration_hash r = migration_hash /\
        Forall (fun x => (r_date x <= date)%nat) (_migration (session w))
  | Raise e => e = StopIteration /\ _migration (session w) = []
  end.
Proof.
  unfold select_latest, latest.
  pose proof (latest_from (_migration (session w)) None) as H.
  destruct (fold_left _ (_migration (session w)) None) as [r|]; cbn [fst snd].
  - split; [reflexivity|]. destruct H as ([Hin | Hin] & Hall & _); [discriminate|].
    exists r. auto 10.
  - split; [reflexivity|]. destruct H as [_ H]. now split.
Qed.

End Current.

(** ** create *)

Section CreateFacts.
Context {DB : Database}.

Lemma create_run (self_source : list Z) (db : string)
    (w : world) :
  match run_statements (create_statements db) (user (session w)) with
  | inl t =>
      create self_source db w
      = (Ok tt,
         let s := {| _migration :=
                       (_migration (session w)
                        ++ [baseline_row (clock w) self_source])%list;
                     user := t |} in
         {| committed := s; session := s; clock := S (clock w);
            stdout := stdout w |})
  | inr msg =>
      exists w',
        create self_source db w = (Raise (DatabaseError msg), w') /\
        committed w' = committed w /\
        _migration (session w') = _migration (session w)
  end.
Proof.
  remember (create self_source db w) as run eqn:Hrun.
  unfold create, bind, run_statement in Hrun.
  unfold create_statements. cbn [run_statements].
  destruct (exec_stmt (user (session w)) _) as [t1|msg];
    [|exists w; subst run; repeat split; reflexivity].
  cbn [session user] in Hrun.
  destruct (exec_stmt t1 _) as [t2|msg];
    [|subst run; eexists; repeat split; reflexivity].
  cbn [session user] in Hrun.
  destruct (exec_stmt t2 _) as [t3|msg];
    [|subst run; eexists; repeat split; reflexivity].
  subst run. reflexivity.
Qed.

(** X12.  [create] sends its three statements in order.  When the server
    accepts them, it records the baseline (version -1, named __baseline__,
    hashed from the program's own file) as one row after those the ledger
    holds, and commits.  When the server refuses one, [create] raises that
    error and neither records nor commits anything. *)
Theorem create_records_the_baseline (self_source : list Z) (db : string)
    (w : world) :
  match run_statements (create_statements db) (user (session w)) with
  | inl t =>
      create self_source db w
      = (Ok tt,
         let s := {| _migration :=
                       (_migration (session w)
                        ++ [baseline_row (clock w) self_source])%list;
                     user := t |} in
         {| committed := s; session := s; clock := S (clock w);
            stdout := stdout w |})
  | inr msg =>
      exists w',
        create self_source db w = (Raise (DatabaseError msg), w') /\
        committed w' = committed w /\
        _migration (session w') = _migration (session w)
  end.
Proof.
  remember (create self_source db w) as run eqn:Hrun.
  unfold create, bind, run_statement in Hrun.
  unfold create_statements. cbn [run_statements].
  destruct (exec_stmt (user (session w)) _) as [t1|msg];
    [|exists w; subst run; repeat split; reflexivity].
  cbn [session user] in Hrun.
  destruct (exec_stmt t1 _) as [t2|msg];
    [|subst run; eexists; repeat split; reflexivity].
  cbn [session user] in Hrun.
  destruct (exec_stmt t2 _) as [t3|msg];
    [|subst run; eexists; repeat split; reflexivity].
  subst run. reflexivity.
Qed.
End CreateFacts.

(** ** A database that was just created *)

Lemma filter_all {A} (P : A -> bool) (l : list A) :
  (forall x, In x l -> P x = true) -> filter P l = l.
Proof.
  induction l as [|x l IH]; intros H; simpl; [reflexivity|].
  rewrite (H x (or_introl eq_refl)). f_equal. apply IH. intros y Hy.
  apply H. now right.
Qed.

Lemma scanned_ups_from_baseline (dir : list File) :
  up_select (sort_by ver (filter is_up (parsed dir))) None (-1)
  = sort_by ver (filter is_up (parsed dir)).
Proof.
  rewrite up_select_filter by apply sort_by_ascending.
  apply filter_all. intros m Hm.
  pose proof (highest_version_ge _ m Hm) as Hhigh.
  apply scanned_up in Hm. destruct Hm as [Hm _].
  destruct (parsed_in _ m Hm) as (f & ty & _ & Hp).
  destruct (parse_file_nonneg f ty m Hp) as (Hv & _).
  cbn [target_or_highest].
  apply andb_true_iff. split; [apply Z.ltb_lt | apply Z.leb_le]; lia.
Qed.

Section FreshDatabase.
Context {DB : Database}.

(** X13.  On a database that [create] has just set up (an empty ledger, the
    three statements accepted), [up] without a version reads the baseline
    as the current state and queues every up migration of the directory,
    in ascending order, with the hash of the program's own file as the
    seed of the chain. *)
Theorem up_after_create_queues_everything (self_source : list Z) (db : string)
    (dir : list File) (w : world) (t : tables)
    (Hempty : _migration (session w) = [])
    (Haccepted : run_statements (create_statements db) (user (session w)) = inl t) :
  exists w1,
    create self_source db w = (Ok tt, w1) /\
    _migration (committed w1) = [baseline_row (clock w) self_source] /\
    up {| migration_dir := dir; version := None |} w1
    = run_queue (sort_by ver (filter is_up (parsed dir)))
        (SHA1.hexdigest self_source)
        {| committed := session w1; session := session w1; clock := clock w1;
           stdout := (stdout w1
                      ++ [PrintHash (SHA1.hexdigest self_source)]
                      ++ [CurrentlyAt (-1) "__baseline__" (clock w)])%list |}.
Proof.
  pose proof (create_run self_source db w) as Hc.
  rewrite Haccepted in Hc. eexists. split; [exact Hc|].
  cbv zeta. cbn [committed session _migration]. rewrite Hempty. cbn [app].
  split; [reflexivity|].
  rewrite (up_run _ _ (baseline_row (clock w) self_source)); [|reflexivity].
  cbn [migration_dir version baseline_row r_version r_migration_hash r_migration
       r_date session clock stdout].
  now rewrite scanned_ups_from_baseline.
Qed.
End FreshDatabase.

(** ** The order of the directory listing *)

Lemma Permutation_filter {A} (P : A -> bool) (l l' : list A) :
  Permutation l l' -> Permutation (filter P l) (filter P l').
Proof.
  induction 1 as [| x l l' _ IH | x y l | l l' l'' _ IH1 _ IH2]; simpl.
  - constructor.
  - destruct (P x); [now constructor | exact IH].
  - destruct (P x), (P y); try apply Permutation_refl. apply perm_swap.
  - now transitivity (filter P l').
Qed.

Lemma NoDup_map_injective {A B} (f : A -> B) (l : list A) :
  NoDup (map f l) -> forall x y, In x l -> In y l -> f x = f y -> x = y.
Proof.
  induction l as [|a l IH]; simpl; intros Hnd x y Hx Hy Hf; [tauto|].
  inversion Hnd as [|? ? Hnotin Hnd']; subst.
  destruct Hx as [<- | Hx], Hy as [<- | Hy]; auto.
  - exfalso. apply Hnotin. rewrite Hf. now apply in_map.
  - exfalso. apply Hnotin. rewrite <- Hf. now apply in_map.
Qed.

(** Two ascending arrangements of the same elements are equal when no two
    elements share a key. *)
Lemma ascending_unique {A} (key : A -> Z) (l1 : list A) :
  forall l2,
    ascending key l1 -> ascending key l2 -> Permutation l1 l2 ->
    (forall x y, In x l1 -> In y l1 -> key x = key y -> x = y) ->
    l1 = l2.
Proof.
  unfold ascending. induction l1 as [|x l1 IH]; intros l2 H1 H2 Hperm Hinj.
  - now apply Permutation_nil in Hperm.
  - destruct l2 as [|y l2];
      [apply Permutation_sym, Permutation_nil in Hperm; discriminate|].
    apply StronglySorted_inv in H1. destruct H1 as [Hs1 Hx].
    apply StronglySorted_inv in H2. destruct H2 as [Hs2 Hy].
    rewrite Forall_forall in Hx, Hy.
    assert (Hyin : In y (x :: l1))
      by (apply (Permutation_in _ (Permutation_sym Hperm)); now left).
    assert (Hxin : In x (y :: l2))
      by (apply (Permutation_in _ Hperm); now left).
    assert (Hxy : x = y).
    { apply Hinj; [now left | exact Hyin |].
      destruct Hyin as [-> | Hyin]; [reflexivity|].
      destruct Hxin as [-> | Hxin]; [reflexivity|].
      pose proof (Hx y Hyin). pose proof (Hy x Hxin). lia. }
    subst y. f_equal. apply Permutation_cons_inv in Hperm.
    apply IH; auto. intros a b Ha Hb. apply Hinj; now right.
Qed.

(** X15.  When no two files of the same direction carry the same version,
    what the scan returns does not depend on the order in which the
    directory lists its entries. *)
Theorem scan_ignores_listing_order (path path' : list File)
    (Hsame : Permutation path path')
    (Hups : NoDup (map ver (filter is_up (parsed path))))
    (Hdowns : NoDup (map ver (filter is_down (parsed path)))) :
  _get_migrations_from_dir path' = _get_migrations_from_dir path.
Proof.
  rewrite !_get_migrations_from_dir_spec.
  assert (Hparsed : Permutation (parsed path) (parsed path'))
    by (unfold parsed; now apply Permutation_flat_map).
  assert (Hsort : forall P : Migration -> bool,
             NoDup (map ver (filter P (parsed path))) ->
             sort_by ver (filter P (parsed path))
             = sort_by ver (filter P (parsed path'))).
  { intros P Hnd. apply (ascending_unique ver);
      [apply sort_by_ascending | apply sort_by_ascending | |].
    - rewrite !sort_by_perm. now apply Permutation_filter.
    - intros x y Hx Hy.
      apply (Permutation_in _ (sort_by_perm ver _)) in Hx.
      apply (Permutation_in _ (sort_by_perm ver _)) in Hy.
      now apply (NoDup_map_injective ver _ Hnd). }
  now rewrite <- (Hsort is_up Hups), <- (Hsort is_down Hdowns).
Qed.

Lemma scan_ignores_listing_order_witness :
  _get_migrations_from_dir (rev example_dir) = _get_migrations_from_dir example_dir.
Proof.
  apply scan_ignores_listing_order.
  - apply Permutation_rev.
  - vm_compute. repeat constructor; simpl; intuition discriminate.
  - vm_compute. repeat constructor; simpl; intuition discriminate.
Defined.

(** ** Targets above the highest version *)

(** X16.  A target at or above the highest up version of the directory
    makes [up] queue what it queues without a target. *)
Theorem target_beyond_highest_is_default (dir : list File) (t c : Z)
    (Hbeyond :
       highest_version (sort_by ver (filter is_up (parsed dir))) <= t) :
  up_select (sort_by ver (filter is_up (parsed dir))) (Some t) c
  = up_select (sort_by ver (filter is_up (parsed dir))) None c.
Proof.
  rewrite !up_select_filter by apply sort_by_ascending.
  apply filter_ext_in. intros m Hm. cbn [target_or_highest].
  pose proof (highest_version_ge _ m Hm) as Hhigh. f_equal.
  destruct (Z.leb_spec (ver m) t), (Z.leb_spec (ver m) (highest_version
    (sort_by ver (filter is_up (parsed dir))))); try reflexivity; lia.
Qed.

Lemma target_beyond_highest_is_default_witness :
  up_select example_ups (Some 9) 1 = up_select example_ups None 1.
Proof.
  apply (target_beyond_highest_is_default example_dir 9 1).
  vm_compute. discriminate.
Defined.

(** ** The names the scan picks up *)

Lemma extension_accepts pos c caps :
  atom_ok Any c = true ->
  rmatch (Atom Any ;; Lit "sql" ;; Eol)%regex pos (String c "sql") caps at_subject_end
  = Some caps.
Proof. intros H. cbn [rmatch]. rewrite H. reflexivity. Qed.

(** A repetition finds a split its continuation accepts whenever there is
    one. *)
Lemma plus_match_complete (a : atom) (p : string) :
  forall q pos caps k,
    p <> EmptyString ->
    all_chars (atom_ok a) p = true ->
    (exists r, k (pos + String.length p)%nat q caps = Some r) ->
    exists r', plus_match a pos (p ++ q) caps k = Some r'.
Proof.
  induction p as [|c p IH]; intros q pos caps k Hne Hall [r Hk]; [congruence|].
  simpl in Hall. apply andb_true_iff in Hall. destruct Hall as [Hc Hp].
  cbn [String.append plus_match]. rewrite Hc.
  destruct (plus_match a (S pos) (p ++ q) caps k) as [r'|] eqn:Hrec;
    [now exists r'|].
  destruct p as [|c' p'].
  - cbn [String.append String.length] in *. exists r.
    now replace (S pos) with (pos + 1)%nat by lia.
  - destruct (IH q (S pos) caps k) as [r' Hr']; [discriminate | exact Hp | |].
    + exists r. rewrite <- Hk. f_equal. simpl. lia.
    + congruence.
Qed.

Lemma description_accepts pos (tail : string) (c : ascii) caps :
  tail = EmptyString \/
  (exists d, tail = "__" ++ d /\ d <> EmptyString /\
             all_chars (atom_ok Any) d = true) ->
  atom_ok Any c = true ->
  exists r,
    rmatch (Opt (Group None (Lit "__" ;; Group (Some "desc") (Plus Any))) ;;
            Atom Any ;; Lit "sql" ;; Eol)%regex pos (tail ++ String c "sql") caps
      at_subject_end = Some r.
Proof.
  intros Htail Hc.
  change (rmatch (Opt (Group None (Lit "__" ;; Group (Some "desc") (Plus Any))) ;;
                  Atom Any ;; Lit "sql" ;; Eol)%regex pos (tail ++ String c "sql")
            caps at_subject_end)
    with (match rmatch (Group None (Lit "__" ;; Group (Some "desc") (Plus Any)))%regex
                  pos (tail ++ String c "sql") caps
                  (fun p s' c0 => rmatch (Atom Any ;; Lit "sql" ;; Eol)%regex
                                    p s' c0 at_subject_end) with
          | Some r => Some r
          | None => rmatch (Atom Any ;; Lit "sql" ;; Eol)%regex pos
                      (tail ++ String c "sql") caps at_subject_end
          end).
  destruct (rmatch (Group None _) _ _ _ _) as [r|] eqn:Hgroup; [now exists r|].
  destruct Htail as [-> | (d & -> & Hdne & Hdall)].
  - exists caps. cbn [String.append]. now apply extension_accepts.
  - exfalso. cbn [rmatch String.append strip_prefix Ascii.eqb Bool.eqb] in Hgroup.
    destruct (plus_match_complete Any d (String c "sql") (pos + String.length "__")
                caps
                (fun p s' c0 =>
                   rmatch (Atom Any ;; Lit "sql" ;; Eol)%regex p s'
                     (set_group None
                        (substring 0 (p - pos) (String "_" (String "_" (d ++ String c "sql"))))
                        (set_group (Some "desc")
                           (substring 0 (p - (pos + String.length "__"))
                              (d ++ String c "sql")) c0))
                     at_subject_end)
                Hdne Hdall) as [r' Hr'].
    + eexists. now apply extension_accepts.
    + enough (Hboth : Some r' = None) by discriminate.
      rewrite <- Hgroup. symmetry. exact Hr'.
Qed.

(** X18.  A directory entry whose name is V or U, then decimal digits,
    then optionally two underscores and a non-empty description, then any
    single character and [sql], with no newline after the digits, is picked
    up by the scan: a descriptor is built from it.  The character before
    [sql] need not be a dot. *)
Theorem accepted_names_are_parsed (f : File) :
  accepted_name (name f) -> exists ty m, parse_file f = Ok (Some (ty, m)).
Proof.
  intros (marker & digits & tail & c & Hs & Hm & Hne & Hall & Htail & Hc).
  assert (Hmatch : exists caps, fullmatch MIGR_MATCH (name f) = Some caps).
  { rewrite Hs. unfold fullmatch, MIGR_MATCH. cbn [rmatch Nat.eqb].
    rewrite (marker_ok marker Hm).
    apply plus_match_complete; [exact Hne | exact Hall |].
    apply (description_accepts _ tail c); assumption. }
  destruct Hmatch as [caps Hcaps].
  destruct (parse_file_cases f) as [Hnone | (n & d & [H | H])];
    [|eauto | eauto].
  unfold parse_file in Hnone. rewrite Hcaps in Hnone.
  pose proof (MIGR_MATCH_inv _ _ Hcaps) as (c0 & ds & Hc0 & Hty & Hnum & Hdne & Hdall).
  destruct (int_digits ds Hdne Hdall) as [n Hn].
  rewrite Hty, Hnum, Hn in Hnone.
  destruct Hc0 as [-> | ->]; cbn in Hnone; discriminate.
Qed.

(** The name V12sql: the digit 2 stands where the dot is expected. *)
Lemma accepted_names_are_parsed_witness :
  exists ty m, parse_file (sql_file "V12sql" "SELECT 1") = Ok (Some (ty, m)).
Proof.
  apply (accepted_names_are_parsed (sql_file "V12sql" "SELECT 1")).
  exists "V"%char, "1", EmptyString, "2"%char.
  split; [reflexivity|]. split; [now left|]. split; [discriminate|].
  split; [reflexivity|]. split; [now left | reflexivity].
Defined.

(** ** Files that share a version *)

Lemma insert_by_stable {A} (key : A -> Z) (k : Z) (x : A) (l : list A) :
  filter (fun y => key y =? k) (insert_by key x l)
  = filter (fun y => key y =? k) (x :: l).
Proof.
  induction l as [|y l IH]; [reflexivity|].
  cbn [insert_by]. destruct (Z.leb_spec (key x) (key y)); [reflexivity|].
  cbn [filter] in *. rewrite IH.
  destruct (Z.eqb_spec (key y) k), (Z.eqb_spec (key x) k); try reflexivity. lia.
Qed.

Lemma sort_by_stable {A} (key : A -> Z) (k : Z) (l : list A) :
  filter (fun y => key y =? k) (sort_by key l) = filter (fun y => key y =? k) l.
Proof.
  induction l as [|x l IH]; [reflexivity|].
  cbn [sort_by fold_right]. rewrite insert_by_stable. cbn [filter].
  unfold sort_by in IH. now rewrite IH.
Qed.

(** X19.  Files of one direction that carry the same version stay, in the
    sequence the scan returns, in the order in which the directory lists
    them. *)
Theorem same_version_keeps_listing_order (path : list File) :
  exists ups downs,
    _get_migrations_from_dir path = Ok [("up", ups); ("down", downs)] /\
    forall n,
      filter (fun m => ver m =? n) ups
      = filter (fun m => ver m =? n) (filter is_up (parsed path)) /\
      filter (fun m => ver m =? n) downs
      = filter (fun m => ver m =? n) (filter is_down (parsed path)).
Proof.
  do 2 eexists. split; [apply _get_migrations_from_dir_spec|].
  intros n. split; apply sort_by_stable.
Qed.

Example same_version_example :
  map (fun m => name (file m))
    (sort_by ver (filter is_up (parsed [sql_file "V2__b.sql" ""; sql_file "V1__z.sql" "";
                                        sql_file "V2__a.sql" ""])))
  = ["V1__z.sql"; "V2__b.sql"; "V2__a.sql"].
Proof. reflexivity. Qed.

(** ** The further properties on the example directories *)



Lemma up_raises_on_undescribed_queue_witness :
  exists w',
    up {| migration_dir := sql_file "V5.sql" "DROP TABLE a" :: example_dir;
          version := None |} (world_at 2)
    = (Raise repr_error, w') /\
    session w' = session (world_at 2).
Proof.
  destruct (@up_raises_on_undescribed_queue log_db
              {| migration_dir := sql_file "V5.sql" "DROP TABLE a" :: example_dir;
                 version := None |} (world_at 2)
              {| r_date := 1; r_version := 2; r_migration := "V";
                 r_migration_hash := "a9993e364706816aba3e25717850c26c9cd0d89d";
                 r_schema_hash := None |}
              eq_refl)
    as (w' & Hrun & _ & Hs & _).
  - vm_compute. apply Exists_cons_tl, Exists_cons_tl, Exists_cons_hd. reflexivity.
  - exists w'. split; assumption.
Defined.

Lemma empty_ledger_stops_iteration_witness :
  fst (up {| migration_dir := example_dir; version := None |}
         (@Build_world log_db (@Build_store log_db [] []) (@Build_store log_db [] [])
            0%nat []))
  = Raise StopIteration.
Proof.
  rewrite (proj1 (@empty_ledger_stops_iteration log_db example_dir None 0
                    (@Build_world log_db (@Build_store log_db [] [])
                       (@Build_store log_db [] []) 0%nat [])
                    eq_refl)).
  reflexivity.
Defined.

Lemma ledger_is_never_written_witness :
  committed (snd (up {| migration_dir := failing_dir; version := None |}
                    (world_at 0)))
  = committed (world_at 0).
Proof.
  exact (proj1 (@ledger_is_never_written log_db
                  {| migration_dir := failing_dir; version := None |}
                  (world_at 0) eq_refl)).
Defined.

Lemma up_after_create_queues_everything_witness :
  exists w1,
    create [35; 33] "shop"
      (@Build_world log_db (@Build_store log_db [] []) (@Build_store log_db [] [])
         0%nat [])
    = (Ok tt, w1) /\
    map r_version (_migration (committed w1)) = [-1].
Proof.
  destruct (@up_after_create_queues_everything log_db [35; 33] "shop" example_dir
              (@Build_world log_db (@Build_store log_db [] []) (@Build_store log_db [] [])
                 0%nat [])
              (create_statements "shop") eq_refl eq_refl)
    as (w1 & Hrun & Hled & _).
  exists w1. split; [exact Hrun|]. rewrite Hled. reflexivity.
Defined.
